(** * Request-signature verification of the Ton.Place mini-app demo

    A shallow embedding of [VerifySignatureFromQuery] and
    [ValidateTimestamp] from [main.go], together with the Go standard
    library routines they call ([crypto/sha256], [crypto/hmac],
    [crypto/subtle], [encoding/hex], [sort.Strings], [strconv.ParseInt]).

    Go strings are byte sequences: they are modelled by [string] (a list
    of 8-bit [ascii]), byte slices by [list Z] with every element in
    [0, 256), [uint32]/[uint64]/[int64] values by [Z] with the wrap-around
    written out, and [map[string][]string] by [gmap string (list string)]. *)

From Stdlib Require Import ZArith String Ascii List Lia.
From stdpp Require Import gmap strings list sorting.

Set Warnings "-clear-no-such-hyp".

(** ** Byte slices and strings *)

Module Bytes.
Local Open Scope Z_scope.

(** [byte(c)] for one character of a Go string. *)
Definition of_ascii (c : ascii) : Z := Z.of_N (N_of_ascii c).

(** The conversion [[]byte(s)]. *)
Fixpoint of_string (s : string) : list Z :=
  match s with
  | EmptyString => []
  | String c s' => of_ascii c :: of_string s'
  end.

(** The conversion [byte(x)] of an unsigned integer: truncation. *)
Definition byte (x : Z) : Z := x mod 256.

Definition is_byte (b : Z) : Prop := 0 <= b < 256.
End Bytes.

(** ** crypto/sha256 *)

Module SHA256.
Local Open Scope Z_scope.

Definition BlockSize : nat := 64.
Definition Size : nat := 32.

(** Arithmetic on [uint32]. *)
Definition u32 (x : Z) : Z := x mod 2 ^ 32.
Definition add32 (x y : Z) : Z := u32 (x + y).
Definition not32 (x : Z) : Z := Z.lxor x 4294967295.
(** [bits.RotateLeft32(x, -n)] *)
Definition rotr (x n : Z) : Z :=
  Z.lor (Z.shiftr x n) (u32 (Z.shiftl x (32 - n))).

Definition init : list Z :=
  [ 0x6a09e667; 0xbb67ae85; 0x3c6ef372; 0xa54ff53a;
    0x510e527f; 0x9b05688c; 0x1f83d9ab; 0x5be0cd19 ].

(** The round constants, eight rounds to a row. *)
Definition _K : list Z :=
  [ 0x428a2f98; 0x71374491; 0xb5c0fbcf; 0xe9b5dba5;
    0x3956c25b; 0x59f111f1; 0x923f82a4; 0xab1c5ed5 ] ++
  [ 0xd807aa98; 0x12835b01; 0x243185be; 0x550c7dc3;
    0x72be5d74; 0x80deb1fe; 0x9bdc06a7; 0xc19bf174 ] ++
  [ 0xe49b69c1; 0xefbe4786; 0x0fc19dc6; 0x240ca1cc;
    0x2de92c6f; 0x4a7484aa; 0x5cb0a9dc; 0x76f988da ] ++
  [ 0x983e5152; 0xa831c66d; 0xb00327c8; 0xbf597fc7;
    0xc6e00bf3; 0xd5a79147; 0x06ca6351; 0x14292967 ] ++
  [ 0x27b70a85; 0x2e1b2138; 0x4d2c6dfc; 0x53380d13;
    0x650a7354; 0x766a0abb; 0x81c2c92e; 0x92722c85 ] ++
  [ 0xa2bfe8a1; 0xa81a664b; 0xc24b8b70; 0xc76c51a3;
    0xd192e819; 0xd6990624; 0xf40e3585; 0x106aa070 ] ++
  [ 0x19a4c116; 0x1e376c08; 0x2748774c; 0x34b0bcb5;
    0x391c0cb3; 0x4ed8aa4a; 0x5b9cca4f; 0x682e6ff3 ] ++
  [ 0x748f82ee; 0x78a5636f; 0x84c87814; 0x8cc70208;
    0x90befffa; 0xa4506ceb; 0xbef9a3f7; 0xc67178f2 ].

Definition at_ (w : list Z) (i : nat) : Z := nth i w 0.

(** Big-endian load of one [uint32] from four bytes. *)
Definition be32 (b0 b1 b2 b3 : Z) : Z :=
  Z.lor (Z.lor (Z.lor (Z.shiftl b0 24) (Z.shiftl b1 16)) (Z.shiftl b2 8)) b3.

(** [w[i]] for [i < 16]: the block read as sixteen big-endian words. *)
Fixpoint words (p : list Z) : list Z :=
  match p with
  | b0 :: b1 :: b2 :: b3 :: p' => be32 b0 b1 b2 b3 :: words p'
  | _ => []
  end.

(** [w[i]] for [16 <= i < 64]; [n] counts the words still to add. *)
Fixpoint schedule (n : nat) (w : list Z) : list Z :=
  match n with
  | O => w
  | S n' =>
      let i := length w in
      let v1 := at_ w (i - 2) in
      let t1 := Z.lxor (Z.lxor (rotr v1 17) (rotr v1 19)) (Z.shiftr v1 10) in
      let v2 := at_ w (i - 15) in
      let t2 := Z.lxor (Z.lxor (rotr v2 7) (rotr v2 18)) (Z.shiftr v2 3) in
      schedule n'
        (w ++ [add32 (add32 (add32 t1 (at_ w (i - 7))) t2) (at_ w (i - 16))])
  end.

Record regs := Regs { ra : Z; rb : Z; rc : Z; rd : Z;
                      re : Z; rf : Z; rg : Z; rh : Z }.

Definition round (r : regs) (kw : Z * Z) : regs :=
  let '(Regs a b c d e f g h) := r in
  let t1 :=
    add32 (add32 (add32 (add32 h
      (Z.lxor (Z.lxor (rotr e 6) (rotr e 11)) (rotr e 25)))
      (Z.lxor (Z.land e f) (Z.land (not32 e) g)))
      (fst kw)) (snd kw) in
  let t2 :=
    add32 (Z.lxor (Z.lxor (rotr a 2) (rotr a 13)) (rotr a 22))
          (Z.lxor (Z.lxor (Z.land a b) (Z.land a c)) (Z.land b c)) in
  Regs (add32 t1 t2) a b c (add32 d t1) e f g.

(** One 64-byte chunk folded into the chaining value. *)
Definition block (h : list Z) (p : list Z) : list Z :=
  let w := schedule 48 (words p) in
  let r0 := Regs (at_ h 0) (at_ h 1) (at_ h 2) (at_ h 3)
                 (at_ h 4) (at_ h 5) (at_ h 6) (at_ h 7) in
  let '(Regs a b c d e f g h') := fold_left round (combine _K w) r0 in
  [ add32 (at_ h 0) a; add32 (at_ h 1) b; add32 (at_ h 2) c;
    add32 (at_ h 3) d; add32 (at_ h 4) e; add32 (at_ h 5) f;
    add32 (at_ h 6) g; add32 (at_ h 7) h' ].

(** [n] chunks of the padded message. *)
Fixpoint blocks (n : nat) (h : list Z) (p : list Z) : list Z :=
  match n with
  | O => h
  | S n' => blocks n' (block h (firstn BlockSize p)) (skipn BlockSize p)
  end.

(** Big-endian store of a [uint64] and of a [uint32]. *)
Definition put64 (x : Z) : list Z :=
  map (fun k => Bytes.byte (Z.shiftr x k)) [56; 48; 40; 32; 24; 16; 8; 0].
Definition put32 (x : Z) : list Z :=
  map (fun k => Bytes.byte (Z.shiftr x k)) [24; 16; 8; 0].

(** Padding of [checkSum]: 0x80, zeros up to 56 mod 64, then the length
    in bits as a [uint64]. *)
Definition pad (msg : list Z) : list Z :=
  let len := Z.of_nat (length msg) in
  let zeros := Z.to_nat ((55 - len) mod 64) in
  msg ++ [128] ++ repeat 0 zeros ++ put64 (Z.shiftl len 3 mod 2 ^ 64).

(** [h := sha256.New(); h.Write(msg); h.Sum(nil)] *)
Definition Sum256 (msg : list Z) : list Z :=
  let p := pad msg in
  let h := blocks (length p / BlockSize)%nat init p in
  flat_map put32 h.
End SHA256.

(** ** crypto/subtle *)

Module Subtle.
Local Open Scope Z_scope.

(** [int((uint32(x^y) - 1) >> 31)] *)
Definition ConstantTimeByteEq (x y : Z) : Z :=
  Z.shiftr ((Z.lxor x y - 1) mod 2 ^ 32) 31.

(** The loop [v |= x[i] ^ y[i]] over slices of equal length. *)
Fixpoint accumulate (v : Z) (x y : list Z) : Z :=
  match x, y with
  | a :: x', b :: y' => accumulate (Z.lor v (Z.lxor a b)) x' y'
  | _, _ => v
  end.

Definition ConstantTimeCompare (x y : list Z) : Z :=
  if negb (length x =? length y)%nat then 0
  else ConstantTimeByteEq (accumulate 0 x y) 0.
End Subtle.

(** ** crypto/hmac over SHA-256 *)

Module HMAC.
Local Open Scope Z_scope.

(** [hmac.New(sha256.New, key)]: a key longer than the block size is
    hashed first, then padded with zeros to the block size. *)
Definition block_key (key : list Z) : list Z :=
  let k := if (SHA256.BlockSize <? length key)%nat
           then SHA256.Sum256 key else key in
  k ++ repeat 0 (SHA256.BlockSize - length k)%nat.

Definition ipad (key : list Z) : list Z :=
  map (fun b => Z.lxor b 0x36) (block_key key).
Definition opad (key : list Z) : list Z :=
  map (fun b => Z.lxor b 0x5c) (block_key key).

(** [h := hmac.New(sha256.New, key); h.Write(msg); h.Sum(nil)] *)
Definition Sum (key msg : list Z) : list Z :=
  SHA256.Sum256 (opad key ++ SHA256.Sum256 (ipad key ++ msg)).

(** [hmac.Equal(mac1, mac2)] *)
Definition Equal (mac1 mac2 : list Z) : bool :=
  Subtle.ConstantTimeCompare mac1 mac2 =? 1.
End HMAC.

(** ** encoding/hex *)

Module Hex.
Local Open Scope Z_scope.

Definition hextable : list ascii :=
  list_ascii_of_string "0123456789abcdef".

Definition digit (i : Z) : ascii := nth (Z.to_nat i) hextable "0"%char.

(** [hex.EncodeToString(src)] *)
Fixpoint EncodeToString (src : list Z) : string :=
  match src with
  | [] => EmptyString
  | v :: src' =>
      String (digit (Z.shiftr v 4))
        (String (digit (Z.land v 15)) (EncodeToString src'))
  end.
End Hex.

(** ** sort.Strings *)

Module Sort.
(** The order [x < y] of Go strings: byte-wise lexicographic. *)
Definition string_lt (x y : string) : Prop := String.ltb x y = true.

(** The same order spelled out on the bytes: the first differing byte
    decides, and a proper prefix comes first. *)
Fixpoint bytes_lt (x y : list Z) : bool :=
  match x, y with
  | _, [] => false
  | [], _ :: _ => true
  | a :: x', b :: y' => (a <? b)%Z || ((a =? b)%Z && bytes_lt x' y')
  end.

(** [sort.Strings(x)]: [x] rearranged into increasing order. *)
Definition Strings (x : list string) : list string := merge_sort String.le x.
End Sort.

(** ** strconv.ParseInt, at base 10 and bit size 64 *)

Module Strconv.
Local Open Scope Z_scope.

Inductive NumError := ErrSyntax | ErrRange.

Definition maxUint64 : Z := 2 ^ 64 - 1.

(** [lower(c)]: [c | ('x' - 'X')] *)
Definition lower (c : Z) : Z := Z.lor c 32.

(** The digit switch of [ParseUint]; [None] is the syntax error. *)
Definition digit_val (base c : Z) : option Z :=
  let d :=
    if (48 <=? c) && (c <=? 57) then Some (c - 48)
    else if (97 <=? lower c) && (lower c <=? 122)
         then Some (Bytes.byte (lower c - 97 + 10))
         else None in
  match d with
  | Some d => if base <=? d then None else Some d
  | None => None
  end.

(** The loop [for _, c := range []byte(s)] of [ParseUint]. *)
Fixpoint ParseUint_loop (base maxVal n : Z) (s : list Z)
  : Z * option NumError :=
  match s with
  | [] => (n, None)
  | c :: s' =>
      match digit_val base c with
      | None => (0, Some ErrSyntax)
      | Some d =>
          let cutoff := maxUint64 / base + 1 in
          if cutoff <=? n then (maxVal, Some ErrRange)
          else
            let n := (n * base) mod 2 ^ 64 in
            let n1 := (n + d) mod 2 ^ 64 in
            if (n1 <? n) || (maxVal <? n1) then (maxVal, Some ErrRange)
            else ParseUint_loop base maxVal n1 s'
      end
  end.

(** [ParseUint(s, 10, 64)] *)
Definition ParseUint (s : string) : Z * option NumError :=
  match s with
  | EmptyString => (0, Some ErrSyntax)
  | _ => ParseUint_loop 10 (2 ^ 64 - 1) 0 (Bytes.of_string s)
  end.

(** The conversion [int64(x)]: [x] read as a 64-bit two's-complement
    number. *)
Definition int64 (x : Z) : Z := (x + 2 ^ 63) mod 2 ^ 64 - 2 ^ 63.

(** The second half of [ParseInt]: convert unsigned and check range. *)
Definition convert (neg : bool) (s : string) : Z * option NumError :=
  match ParseUint s with
  | (_, Some ErrSyntax) => (0, Some ErrSyntax)
  | (un, _) =>
      let cutoff := 2 ^ 63 in
      if negb neg && (cutoff <=? un)
      then (int64 (cutoff - 1), Some ErrRange)
      else if neg && (cutoff <? un)
      then (int64 (- int64 cutoff), Some ErrRange)
      else
        let n := int64 un in
        (if neg then int64 (- n) else n, None)
  end.

(** [ParseInt(s, 10, 64)]: pick off the leading sign, then convert. *)
Definition ParseInt (s : string) : Z * option NumError :=
  match s with
  | EmptyString => (0, Some ErrSyntax)
  | String c0 s1 =>
      if Ascii.eqb c0 "+" then convert false s1
      else if Ascii.eqb c0 "-" then convert true s1
      else convert false s
  end.
End Strconv.

(** ** main.go *)

Local Open Scope Z_scope.

Definition SIGNATURE_MAX_AGE : Z := 300.

Definition newline : string := String "010" EmptyString.

(** Body of the loop [for key, values := range queryParams]. *)
Definition collect_step (paramsMap : gmap string string)
    (kv : string * list string) : gmap string string :=
  if decide (kv.1 = "hash") then paramsMap
  else match kv.2 with
       | v0 :: _ => <[kv.1 := v0]> paramsMap
       | [] => paramsMap
       end.

(** Step 1, for the entries of [queryParams] in the order the [range]
    statement happens to produce them. *)
Definition collect (entries : list (string * list string))
  : gmap string string :=
  foldl collect_step ∅ entries.

Definition paramsMap (queryParams : gmap string (list string))
  : gmap string string :=
  collect (map_to_list queryParams).

(** Step 2: the keys appended in iteration order, then [sort.Strings]. *)
Definition keys (paramsMap : gmap string string) : list string :=
  Sort.Strings (map_to_list paramsMap).*1.

(** [paramsMap[key]]: the zero value for a missing key. *)
Definition index (paramsMap : gmap string string) (key : string) : string :=
  default "" (paramsMap !! key).

(** Step 3: the loop [for i, key := range keys]. *)
Fixpoint checkStr_loop (paramsMap : gmap string string) (i : nat)
    (keys : list string) (checkStr : string) : string :=
  match keys with
  | [] => checkStr
  | key :: keys' =>
      let checkStr :=
        if (0 <? i)%nat then checkStr +:+ newline else checkStr in
      checkStr_loop paramsMap (S i) keys'
        (checkStr +:+ (key +:+ "=" +:+ index paramsMap key))
  end.

Definition checkStr (queryParams : gmap string (list string)) : string :=
  let pm := paramsMap queryParams in
  checkStr_loop pm 0 (keys pm) "".

(** Step 4 *)
Definition secretKey (secret : string) : list Z :=
  SHA256.Sum256 (Bytes.of_string secret).

(** Step 5 *)
Definition sign (secret checkStr : string) : string :=
  Hex.EncodeToString (HMAC.Sum (secretKey secret) (Bytes.of_string checkStr)).

Definition expectedHash (queryParams : gmap string (list string))
    (secret : string) : string :=
  sign secret (checkStr queryParams).

(** Step 6 *)
Definition providedHash (queryParams : gmap string (list string)) : string :=
  match queryParams !! "hash" with
  | Some (v0 :: _) => v0
  | _ => ""
  end.

(** Step 7 *)
Definition VerifySignatureFromQuery (queryParams : gmap string (list string))
    (secret : string) : bool :=
  HMAC.Equal (Bytes.of_string (expectedHash queryParams secret))
             (Bytes.of_string (providedHash queryParams)).

(** [now - ts] in [int64]. *)
Definition sub64 (x y : Z) : Z := Strconv.int64 (x - y).

(** [ValidateTimestamp]; [now] is the reading [time.Now().Unix()]. *)
Definition ValidateTimestamp (now : Z) (tsStr : string) : bool :=
  match Strconv.ParseInt tsStr with
  | (_, Some _) => false
  | (ts, None) =>
      let age := sub64 now ts in
      if age <? -60 then false
      else if SIGNATURE_MAX_AGE <? age then false
      else true
  end.

(** * Properties of the library models *)

Section StringFacts.
Lemma string_app_cons (x : ascii) (a b : string) :
  String x a +:+ b = String x (a +:+ b).
Proof. reflexivity. Qed.

Lemma string_app_nil_l (a : string) : "" +:+ a = a.
Proof. reflexivity. Qed.

Lemma string_app_assoc (a b c : string) : (a +:+ b) +:+ c = a +:+ (b +:+ c).
Proof.
  induction a as [|x a IH]; [done|].
  by rewrite !string_app_cons, IH.
Qed.

Lemma string_app_nil_r (a : string) : a +:+ "" = a.
Proof.
  induction a as [|x a IH]; [done|]. by rewrite string_app_cons, IH.
Qed.

Lemma string_app_length (a b : string) :
  String.length (a +:+ b) = (String.length a + String.length b)%nat.
Proof.
  induction a as [|x a IH]; [done|]. rewrite string_app_cons. cbn.
  by rewrite IH.
Qed.

Lemma string_app_inv_tail (a b c : string) : a +:+ c = b +:+ c → a = b.
Proof.
  revert b. induction a as [|x a IH]; intros [|y b] H.
  - done.
  - apply (f_equal String.length) in H.
    rewrite string_app_nil_l, string_app_cons in H. cbn in H.
    rewrite string_app_length in H. lia.
  - apply (f_equal String.length) in H.
    rewrite string_app_nil_l, string_app_cons in H. cbn in H.
    rewrite string_app_length in H. lia.
  - rewrite !string_app_cons in H. injection H as -> H.
    f_equal. by apply IH.
Qed.

Lemma string_lt_le_ne (x y : string) :
  Sort.string_lt x y ↔ String.le x y ∧ x ≠ y.
Proof.
  unfold Sort.string_lt, String.le, String.ltb, String.leb.
  destruct (String.compare x y) eqn:E; cbn.
  - apply String.compare_eq_iff in E. naive_solver.
  - split; [intros _; split; [done|]|done].
    intros ->. assert (String.le y y) as H by done.
    unfold String.le, String.leb in H.
    rewrite String.compare_antisym in E.
    destruct (String.compare y y); done.
  - naive_solver.
Qed.

Lemma string_lt_bytes (x y : string) :
  Sort.string_lt x y ↔
  Sort.bytes_lt (Bytes.of_string x) (Bytes.of_string y) = true.
Proof.
  unfold Sort.string_lt, String.ltb.
  revert y. induction x as [|a x IH]; intros [|b y]; cbn; try done.
  unfold Ascii.compare, Bytes.of_ascii.
  rewrite <- (N2Z.inj_compare (N_of_ascii a) (N_of_ascii b)).
  specialize (IH y).
  destruct (Z.compare_spec (Z.of_N (N_of_ascii a)) (Z.of_N (N_of_ascii b)))
    as [Heq|Hlt|Hgt].
  - rewrite Heq, Z.ltb_irrefl, Z.eqb_refl. cbn. done.
  - rewrite (proj2 (Z.ltb_lt _ _) Hlt). done.
  - rewrite (proj2 (Z.ltb_ge _ _)) by lia.
    rewrite (proj2 (Z.eqb_neq _ _)) by lia. done.
Qed.
End StringFacts.

Section BytesFacts.
Lemma of_ascii_range (c : ascii) : Bytes.is_byte (Bytes.of_ascii c).
Proof.
  unfold Bytes.is_byte, Bytes.of_ascii.
  pose proof (N_ascii_bounded c). lia.
Qed.

Lemma of_ascii_inj (c d : ascii) : Bytes.of_ascii c = Bytes.of_ascii d → c = d.
Proof.
  unfold Bytes.of_ascii. intros H%(inj Z.of_N).
  by rewrite <- (ascii_N_embedding c), <- (ascii_N_embedding d), H.
Qed.

Lemma of_string_inj (s t : string) :
  Bytes.of_string s = Bytes.of_string t → s = t.
Proof.
  revert t. induction s as [|c s IH]; intros [|d t] H; cbn in H; try done.
  injection H as H1 H2. f_equal; [by apply of_ascii_inj | by apply IH].
Qed.

Lemma of_string_bytes (s : string) : Forall Bytes.is_byte (Bytes.of_string s).
Proof.
  induction s as [|c s IH]; cbn; constructor; [apply of_ascii_range | done].
Qed.

Lemma of_string_length (s : string) :
  length (Bytes.of_string s) = String.length s.
Proof. induction s as [|c s IH]; cbn; [done | by rewrite IH]. Qed.

Lemma byte_range (x : Z) : Bytes.is_byte (Bytes.byte x).
Proof. unfold Bytes.is_byte, Bytes.byte. apply Z.mod_pos_bound. lia. Qed.
End BytesFacts.

(** [hmac.Equal] decides equality of byte slices. *)
Section CompareFacts.
Lemma bits_below (a n : Z) : 0 <= a → 0 < n → (a < 2 ^ n ↔ a = 0 ∨ Z.log2 a < n).
Proof.
  intros Ha Hn. destruct (decide (a = 0)) as [->|Hne].
  - split; [auto|]. intros _. apply Z.pow_pos_nonneg; lia.
  - rewrite <- Z.log2_lt_pow2 by lia. naive_solver.
Qed.

Lemma lor_byte (a b : Z) :
  Bytes.is_byte a → Bytes.is_byte b → Bytes.is_byte (Z.lor a b).
Proof.
  unfold Bytes.is_byte. intros [Ha1 Ha2] [Hb1 Hb2].
  assert (0 <= Z.lor a b) as H0 by (apply Z.lor_nonneg; lia).
  split; [done|]. change 256 with (2 ^ 8) in *.
  apply bits_below; [done|lia|].
  apply bits_below in Ha2, Hb2; try lia.
  destruct (decide (Z.lor a b = 0)); [auto|right].
  rewrite Z.log2_lor by lia.
  destruct Ha2 as [->|?], Hb2 as [->|?]; cbn in *; lia.
Qed.

Lemma lxor_byte (a b : Z) :
  Bytes.is_byte a → Bytes.is_byte b → Bytes.is_byte (Z.lxor a b).
Proof.
  unfold Bytes.is_byte. intros [Ha1 Ha2] [Hb1 Hb2].
  assert (0 <= Z.lxor a b) as H0 by (apply Z.lxor_nonneg; lia).
  split; [done|]. change 256 with (2 ^ 8) in *.
  apply bits_below; [done|lia|].
  apply bits_below in Ha2, Hb2; try lia.
  destruct (decide (Z.lxor a b = 0)); [auto|right].
  pose proof (Z.log2_lxor a b Ha1 Hb1).
  destruct Ha2 as [->|?], Hb2 as [->|?]; cbn in *; lia.
Qed.

Lemma ConstantTimeByteEq_zero (v : Z) :
  Bytes.is_byte v → (Subtle.ConstantTimeByteEq v 0 = 1 ↔ v = 0).
Proof.
  unfold Bytes.is_byte, Subtle.ConstantTimeByteEq. intros Hv.
  rewrite Z.lxor_0_r. split.
  - intros H. destruct (decide (v = 0)) as [|Hne]; [done|exfalso].
    rewrite Z.mod_small in H by lia.
    rewrite Z.shiftr_div_pow2 in H by lia.
    rewrite Z.div_small in H by lia. done.
  - intros ->. reflexivity.
Qed.

Lemma accumulate_byte (v : Z) (x y : list Z) :
  Bytes.is_byte v → Forall Bytes.is_byte x → Forall Bytes.is_byte y →
  Bytes.is_byte (Subtle.accumulate v x y).
Proof.
  intros Hv Hx. revert v Hv y.
  induction Hx as [|a x Ha Hx IH]; intros v Hv y Hy; [done|].
  destruct Hy as [|b y Hb Hy]; [done|]. cbn.
  apply IH; [|done]. by apply lor_byte, lxor_byte.
Qed.

Lemma accumulate_zero (v : Z) (x y : list Z) :
  length x = length y →
  (Subtle.accumulate v x y = 0 ↔ v = 0 ∧ x = y).
Proof.
  revert v y. induction x as [|a x IH]; intros v [|b y] Hlen; cbn in *;
    try done; [naive_solver|].
  rewrite IH by lia. rewrite Z.lor_eq_0_iff. split.
  - intros [[-> H] ->]. apply Z.lxor_eq in H. by subst.
  - intros [-> [= -> ->]]. by rewrite Z.lxor_nilpotent.
Qed.

Lemma Equal_spec (x y : list Z) :
  Forall Bytes.is_byte x → Forall Bytes.is_byte y →
  (HMAC.Equal x y = true ↔ x = y).
Proof.
  intros Hx Hy. unfold HMAC.Equal, Subtle.ConstantTimeCompare.
  rewrite Z.eqb_eq.
  destruct (length x =? length y)%nat eqn:E; cbn.
  - apply Nat.eqb_eq in E.
    rewrite ConstantTimeByteEq_zero
      by (apply accumulate_byte; [unfold Bytes.is_byte; lia|done..]).
    rewrite accumulate_zero by done. naive_solver.
  - apply Nat.eqb_neq in E. split; [done|]. intros ->. done.
Qed.

Lemma Equal_strings (s t : string) :
  HMAC.Equal (Bytes.of_string s) (Bytes.of_string t) = true ↔ s = t.
Proof.
  rewrite Equal_spec by apply of_string_bytes.
  split; [apply of_string_inj | by intros ->].
Qed.
End CompareFacts.

(** Digests have the fixed size of SHA-256 and consist of bytes. *)
Section DigestFacts.
Lemma block_length (h p : list Z) : length (SHA256.block h p) = 8%nat.
Proof.
  unfold SHA256.block.
  by destruct (fold_left SHA256.round _ _).
Qed.

Lemma blocks_length (n : nat) (h p : list Z) :
  length h = 8%nat → length (SHA256.blocks n h p) = 8%nat.
Proof.
  revert h p. induction n as [|n IH]; intros h p Hh; [done|].
  cbn. apply IH, block_length.
Qed.

Lemma put32_length (x : Z) : length (SHA256.put32 x) = 4%nat.
Proof. reflexivity. Qed.

Lemma put32_bytes (x : Z) : Forall Bytes.is_byte (SHA256.put32 x).
Proof.
  unfold SHA256.put32. apply Forall_forall. intros b Hb.
  apply list_elem_of_fmap in Hb as (k & -> & _). apply byte_range.
Qed.

Lemma Sum256_length (msg : list Z) :
  length (SHA256.Sum256 msg) = SHA256.Size.
Proof.
  unfold SHA256.Sum256.
  pose proof (blocks_length (length (SHA256.pad msg) / SHA256.BlockSize)
                SHA256.init (SHA256.pad msg) eq_refl) as H.
  revert H. generalize (SHA256.blocks (length (SHA256.pad msg) / SHA256.BlockSize)
                          SHA256.init (SHA256.pad msg)).
  intros h Hh. clear msg.
  assert (∀ l : list Z, length (flat_map SHA256.put32 l) = (4 * length l)%nat)
    as Hl.
  { induction l as [|x l IH]; [done|].
    cbn [flat_map]. rewrite length_app, put32_length, IH. cbn. lia. }
  by rewrite Hl, Hh.
Qed.

Lemma Sum256_bytes (msg : list Z) : Forall Bytes.is_byte (SHA256.Sum256 msg).
Proof.
  unfold SHA256.Sum256. generalize (SHA256.blocks
    (length (SHA256.pad msg) / SHA256.BlockSize) SHA256.init (SHA256.pad msg)).
  induction l as [|x l IH]; [constructor|].
  cbn [flat_map]. apply Forall_app. split; [apply put32_bytes | done].
Qed.

Lemma HMAC_length (key msg : list Z) :
  length (HMAC.Sum key msg) = SHA256.Size.
Proof. apply Sum256_length. Qed.

Lemma HMAC_bytes (key msg : list Z) : Forall Bytes.is_byte (HMAC.Sum key msg).
Proof. apply Sum256_bytes. Qed.
End DigestFacts.

(** [hex.EncodeToString] doubles the length and emits lowercase digits. *)
Section HexFacts.
Definition lower_hex (s : string) : Prop :=
  Forall (λ c, c ∈ Hex.hextable) (list_ascii_of_string s).

Lemma EncodeToString_length (src : list Z) :
  String.length (Hex.EncodeToString src) = (2 * length src)%nat.
Proof. induction src as [|v src IH]; cbn; [done | rewrite IH; lia]. Qed.

Lemma digit_hextable (i : Z) : 0 <= i < 16 → Hex.digit i ∈ Hex.hextable.
Proof.
  intros Hi. unfold Hex.digit. apply list_elem_of_In, nth_In.
  change (length Hex.hextable) with 16%nat. lia.
Qed.

Lemma EncodeToString_lower (src : list Z) :
  Forall Bytes.is_byte src → lower_hex (Hex.EncodeToString src).
Proof.
  unfold lower_hex. induction 1 as [|v src [Hv1 Hv2] Hsrc IH]; cbn;
    [constructor|].
  constructor; [|constructor; [|done]].
  - apply digit_hextable. rewrite Z.shiftr_div_pow2 by lia.
    change (2 ^ 4) with 16. split; [apply Z.div_pos; lia|].
    apply Z.div_lt_upper_bound; lia.
  - apply digit_hextable. change 15 with (Z.ones 4).
    rewrite Z.land_ones by lia. apply Z.mod_pos_bound. lia.
Qed.
End HexFacts.

(** [sort.Strings] on a duplicate-free slice. *)
Section SortFacts.
Lemma lt_sorted_le (l : list string) :
  StronglySorted Sort.string_lt l → StronglySorted String.le l ∧ NoDup l.
Proof.
  induction 1 as [|x l Hl [IH1 IH2] Hx].
  - split; constructor.
  - split; constructor; try done.
    + eapply Forall_impl; [exact Hx|]. intros y Hy.
      by apply string_lt_le_ne in Hy as [? _].
    + intros Hin. rewrite Forall_forall in Hx.
      apply Hx, string_lt_le_ne in Hin as [_ ?]. done.
Qed.

Lemma le_sorted_lt (l : list string) :
  StronglySorted String.le l → NoDup l → StronglySorted Sort.string_lt l.
Proof.
  induction 1 as [|x l Hl IH Hx]; intros Hnd; [constructor|].
  apply NoDup_cons in Hnd as [Hx' Hnd].
  constructor; [by apply IH|].
  rewrite Forall_forall in Hx |- *. intros y Hy.
  apply string_lt_le_ne. split; [by apply Hx|]. by intros ->.
Qed.

Lemma Strings_perm (x : list string) : Sort.Strings x ≡ₚ x.
Proof. apply merge_sort_Permutation. Qed.

Lemma Strings_sorted (x : list string) :
  StronglySorted String.le (Sort.Strings x).
Proof. apply StronglySorted_merge_sort; apply _. Qed.

Lemma Strings_strict (x : list string) :
  NoDup x → StronglySorted Sort.string_lt (Sort.Strings x).
Proof.
  intros Hnd. apply le_sorted_lt; [apply Strings_sorted|].
  by rewrite Strings_perm.
Qed.

(** The result does not depend on the order of the input. *)
Lemma Strings_order (x y : list string) :
  x ≡ₚ y → Sort.Strings x = Sort.Strings y.
Proof.
  intros Hxy. apply (StronglySorted_unique String.le);
    try apply Strings_sorted.
  by rewrite !Strings_perm.
Qed.

(** A strictly increasing list is determined by its members. *)
Lemma strict_unique (l1 l2 : list string) :
  StronglySorted Sort.string_lt l1 → StronglySorted Sort.string_lt l2 →
  (∀ k, k ∈ l1 ↔ k ∈ l2) → l1 = l2.
Proof.
  intros [H1 N1]%lt_sorted_le [H2 N2]%lt_sorted_le Hm.
  apply (StronglySorted_unique String.le); try done.
  by apply NoDup_Permutation.
Qed.
End SortFacts.

(** * The parameter set and the check string *)

(** The first value of a name, as the specification's one-value-per-name
    parameter set has it. *)
Definition first_value (queryParams : gmap string (list string))
    (k : string) : option string :=
  if decide (k = "hash") then None else queryParams !! k ≫= head.

(** One entry [name=value] of the check string. *)
Definition entry (k v : string) : string := k +:+ "=" +:+ v.

Section CollectFacts.
Implicit Types (q : gmap string (list string)) (pm : gmap string string).

Lemma collect_step_lookup pm (kv : string * list string) (k : string) :
  collect_step pm kv !! k =
    if decide (k = kv.1)
    then (if decide (k = "hash") then pm !! k
          else match head kv.2 with Some v => Some v | None => pm !! k end)
    else pm !! k.
Proof.
  unfold collect_step. destruct kv as [k' vs]; cbn.
  destruct (decide (k = k')) as [->|Hne].
  - destruct (decide (k' = "hash")); [done|].
    destruct vs; cbn; [done|]. by rewrite lookup_insert_eq.
  - destruct (decide (k' = "hash")); [done|].
    destruct vs; cbn; [done|]. by rewrite lookup_insert_ne.
Qed.

Lemma foldl_collect_lookup (entries : list (string * list string)) pm k :
  NoDup entries.*1 →
  foldl collect_step pm entries !! k =
    match (if decide (k = "hash") then None
           else (list_to_map entries : gmap string (list string)) !! k ≫= head)
    with
    | Some v => Some v
    | None => pm !! k
    end.
Proof.
  revert pm. induction entries as [|[k' vs] es IH]; intros pm Hnd.
  - cbn. rewrite lookup_empty. by destruct (decide _).
  - cbn [foldl]. rewrite fmap_cons in Hnd. apply NoDup_cons in Hnd as [Hk' Hnd].
    rewrite IH by done. rewrite collect_step_lookup, list_to_map_cons.
    cbn [fst snd].
    destruct (decide (k = "hash")) as [->|Hh].
    + by destruct (decide _).
    + destruct (decide (k = k')) as [->|Hne].
      * rewrite lookup_insert_eq.
        rewrite (not_elem_of_list_to_map_1 (M := gmap string)) by done.
        cbn. by destruct (head vs).
      * by rewrite lookup_insert_ne.
Qed.

(** Step 1 in any iteration order. *)
Lemma collect_lookup (entries : list (string * list string)) q k :
  entries ≡ₚ map_to_list q → collect entries !! k = first_value q k.
Proof.
  intros Hp. unfold collect, first_value.
  rewrite foldl_collect_lookup.
  - rewrite lookup_empty.
    assert ((list_to_map entries : gmap string (list string)) = q) as ->.
    { rewrite <- (list_to_map_to_list q). apply list_to_map_proper; [|done].
      rewrite Hp. apply NoDup_fst_map_to_list. }
    destruct (decide _); [done|]. by destruct (q !! k ≫= head).
  - rewrite Hp. apply NoDup_fst_map_to_list.
Qed.

Lemma collect_order (entries : list (string * list string)) q :
  entries ≡ₚ map_to_list q → collect entries = paramsMap q.
Proof.
  intros Hp. apply map_eq. intros k. unfold paramsMap.
  by rewrite !(collect_lookup _ q).
Qed.

Lemma paramsMap_lookup q k : paramsMap q !! k = first_value q k.
Proof. by apply collect_lookup. Qed.

Lemma elem_of_keys pm (k : string) : k ∈ keys pm ↔ is_Some (pm !! k).
Proof.
  unfold keys. rewrite Strings_perm, list_elem_of_fmap. split.
  - intros ([k' v] & -> & Hin). apply elem_of_map_to_list in Hin. eauto.
  - intros [v Hv]. exists (k, v). by rewrite elem_of_map_to_list.
Qed.

Lemma keys_strict pm : StronglySorted Sort.string_lt (keys pm).
Proof. apply Strings_strict, NoDup_fst_map_to_list. Qed.

Lemma keys_NoDup pm : NoDup (keys pm).
Proof. by apply lt_sorted_le, keys_strict. Qed.

(** Step 2 in any iteration order. *)
Lemma keys_order pm (ks : list string) :
  ks ≡ₚ (map_to_list pm).*1 → Sort.Strings ks = keys pm.
Proof. apply Strings_order. Qed.

Lemma index_lookup pm k v : pm !! k = Some v → index pm k = v.
Proof. unfold index. by intros ->. Qed.
End CollectFacts.

(** Step 3 is a join with a single separator between the entries. *)
Section JoinFacts.
Implicit Types (pm : gmap string string) (ks : list string).

(** The entries after the first: each preceded by the separator. *)
Fixpoint tail_entries (es : list string) : string :=
  match es with
  | [] => ""
  | e :: es' => newline +:+ e +:+ tail_entries es'
  end.

Lemma concat_tail (e : string) (es : list string) :
  String.concat newline (e :: es) = e +:+ tail_entries es.
Proof.
  revert e. induction es as [|e' es IH]; intros e.
  - cbn. by rewrite string_app_nil_r.
  - cbn [tail_entries]. rewrite <- IH. reflexivity.
Qed.

Lemma checkStr_loop_succ pm (i : nat) ks (acc : string) :
  checkStr_loop pm (S i) ks acc =
    acc +:+ tail_entries ((λ k, entry k (index pm k)) <$> ks).
Proof.
  revert i acc. induction ks as [|k ks IH]; intros i acc.
  - cbn. by rewrite string_app_nil_r.
  - cbn [checkStr_loop fmap list_fmap tail_entries]. rewrite IH.
    change (0 <? S i)%nat with true. cbn match. unfold entry.
    by rewrite !string_app_assoc.
Qed.

Lemma checkStr_loop_join pm ks :
  checkStr_loop pm 0 ks "" =
    String.concat newline ((λ k, entry k (index pm k)) <$> ks).
Proof.
  destruct ks as [|k ks]; [done|].
  cbn [checkStr_loop fmap list_fmap]. rewrite checkStr_loop_succ, concat_tail.
  reflexivity.
Qed.
End JoinFacts.

(** * Canonicalization *)

(** The specification's canonicalizer over a one-value-per-name parameter
    set: drop the signature field, sort the names, emit [name=value], join
    with a newline. *)
Definition canonicalize (P : gmap string string) : string :=
  let P' := delete "hash" P in
  let names := Sort.Strings (map_to_list P').*1 in
  String.concat newline ((λ k, entry k (default "" (P' !! k))) <$> names).

(** The value the check string shows for a name. *)
Definition value_of (q : gmap string (list string)) (k : string) : string :=
  match q !! k with
  | Some (v :: _) => v
  | _ => ""
  end.

(** A name is retained when it is not the signature field and carries at
    least one value. *)
Definition retained (q : gmap string (list string)) (k : string) : Prop :=
  k ≠ "hash" ∧ ∃ v vs, q !! k = Some (v :: vs).

(** [s] lists [name=value] for exactly the retained names, in strictly
    increasing order of the names, with one newline between entries. *)
Definition is_canonical (q : gmap string (list string)) (s : string) : Prop :=
  ∃ names : list string,
    StronglySorted Sort.string_lt names ∧
    (∀ k, k ∈ names ↔ retained q k) ∧
    s = String.concat newline ((λ k, entry k (value_of q k)) <$> names).

(** Steps 1 to 3 under arbitrary iteration orders of the two [range] loops
    over maps. *)
Definition checkStr_in_order (entries : list (string * list string))
    (ks : list string) : string :=
  checkStr_loop (collect entries) 0 (Sort.Strings ks) "".

(** The strings appended by step 3, one per key. *)
Definition entries (q : gmap string (list string)) : list string :=
  (λ k, entry k (index (paramsMap q) k)) <$> keys (paramsMap q).

Section CanonicalFacts.
Implicit Types (q : gmap string (list string)) (pm : gmap string string).

Lemma first_value_Some q k v :
  first_value q k = Some v ↔ k ≠ "hash" ∧ ∃ vs, q !! k = Some (v :: vs).
Proof.
  unfold first_value. destruct (decide (k = "hash")); [naive_solver|].
  destruct (q !! k) as [[|v' vs]|]; cbn; naive_solver.
Qed.

Lemma first_value_retained q k : is_Some (first_value q k) ↔ retained q k.
Proof.
  unfold retained, is_Some. setoid_rewrite first_value_Some. naive_solver.
Qed.

Lemma first_value_value_of q k v : first_value q k = Some v → value_of q k = v.
Proof.
  intros (_ & vs & H)%first_value_Some. unfold value_of. by rewrite H.
Qed.

Lemma elem_of_keys_paramsMap q k : k ∈ keys (paramsMap q) ↔ retained q k.
Proof. by rewrite elem_of_keys, paramsMap_lookup, first_value_retained. Qed.

Lemma checkStr_entries q : checkStr q = String.concat newline (entries q).
Proof. apply checkStr_loop_join. Qed.

Lemma entries_value_of q :
  entries q = (λ k, entry k (value_of q k)) <$> keys (paramsMap q).
Proof.
  unfold entries. apply list_fmap_ext. intros i k Hk.
  apply list_elem_of_lookup_2, elem_of_keys in Hk as [v Hv].
  rewrite (index_lookup _ _ _ Hv). rewrite paramsMap_lookup in Hv.
  by rewrite (first_value_value_of _ _ _ Hv).
Qed.

Lemma checkStr_is_canonical q : is_canonical q (checkStr q).
Proof.
  exists (keys (paramsMap q)). split; [apply keys_strict|]. split.
  - apply elem_of_keys_paramsMap.
  - by rewrite checkStr_entries, entries_value_of.
Qed.

Lemma is_canonical_unique q s : is_canonical q s → s = checkStr q.
Proof.
  intros (names & Hs & Hm & ->).
  rewrite checkStr_entries, entries_value_of. do 2 f_equal.
  apply strict_unique; [done | apply keys_strict |].
  intros k. by rewrite Hm, elem_of_keys_paramsMap.
Qed.

(** The check string is a function of the first values alone. *)
Lemma checkStr_paramsMap q1 q2 :
  paramsMap q1 = paramsMap q2 → checkStr q1 = checkStr q2.
Proof. unfold checkStr. by intros ->. Qed.

Lemma paramsMap_ext q1 q2 :
  (∀ k, first_value q1 k = first_value q2 k) → paramsMap q1 = paramsMap q2.
Proof.
  intros H. apply map_eq. intros k. by rewrite !paramsMap_lookup.
Qed.

Lemma paramsMap_omap q : paramsMap q = delete "hash" (omap head q).
Proof.
  apply map_eq. intros k. rewrite paramsMap_lookup, lookup_delete.
  unfold first_value. destruct (decide ("hash" = k)) as [<-|Hne].
  - by rewrite decide_True.
  - rewrite decide_False by done. by rewrite lookup_omap.
Qed.

(** The code's steps 1 to 3 compute the specification's canonicalizer on
    the parameter set of first values. *)
Lemma checkStr_canonicalize q : checkStr q = canonicalize (omap head q).
Proof.
  rewrite checkStr_entries. unfold entries, canonicalize.
  by rewrite paramsMap_omap.
Qed.

Lemma checkStr_in_order_eq q (es : list (string * list string))
    (ks : list string) :
  es ≡ₚ map_to_list q → ks ≡ₚ (map_to_list (collect es)).*1 →
  checkStr_in_order es ks = checkStr q.
Proof.
  intros He Hk. unfold checkStr_in_order, checkStr.
  rewrite (collect_order _ _ He) in *. by rewrite (keys_order _ _ Hk).
Qed.
End CanonicalFacts.

(** C1: the check string built by VerifySignatureFromQuery lists
    [name=value] (value verbatim) for exactly the retained names, in
    strictly ascending byte-wise order of the names, joined by one newline
    with no leading or trailing separator; it is the only string of that
    shape, and it is empty when no name is retained. *)
Theorem C1_check_string_is_canonical (q : gmap string (list string)) :
  is_canonical q (checkStr q) ∧
  (∀ s, is_canonical q s → s = checkStr q) ∧
  ((∀ k, ¬ retained q k) → checkStr q = "").
Proof.
  split; [apply checkStr_is_canonical|]. split; [apply is_canonical_unique|].
  intros Hnone. rewrite checkStr_entries, entries_value_of.
  destruct (keys (paramsMap q)) as [|k ks] eqn:E; [done|].
  exfalso. apply (Hnone k), elem_of_keys_paramsMap. rewrite E. left.
Qed.

(** * The signature field and the value lists *)

Section FieldFacts.
Implicit Types (q : gmap string (list string)).

Lemma first_value_insert_hash q (vs : list string) k :
  first_value (<["hash" := vs]> q) k = first_value q k.
Proof.
  unfold first_value. destruct (decide (k = "hash")); [done|].
  by rewrite lookup_insert_ne.
Qed.

Lemma first_value_delete_hash q k :
  first_value (delete "hash" q) k = first_value q k.
Proof.
  unfold first_value. destruct (decide (k = "hash")); [done|].
  by rewrite lookup_delete_ne.
Qed.

Lemma first_value_insert q k k' (v : string) (vs : list string) :
  k ≠ "hash" →
  first_value (<[k := v :: vs]> q) k' =
    if decide (k' = k) then Some v else first_value q k'.
Proof.
  intros Hk. unfold first_value. destruct (decide (k' = k)) as [->|Hne].
  - rewrite decide_False by done. by rewrite lookup_insert_eq.
  - destruct (decide (k' = "hash")); [done|]. by rewrite lookup_insert_ne.
Qed.

(** The part of a join before, and after, one of its entries. *)
Definition head_entries (es : list string) : string :=
  match es with
  | [] => ""
  | _ => String.concat newline es +:+ newline
  end.

Lemma tail_entries_app (es1 es2 : list string) :
  tail_entries (es1 ++ es2) = tail_entries es1 +:+ tail_entries es2.
Proof.
  induction es1 as [|e es1 IH]; [done|].
  cbn [app tail_entries]. by rewrite IH, !string_app_assoc.
Qed.

Lemma concat_split (es1 es2 : list string) (e : string) :
  String.concat newline (es1 ++ e :: es2) =
    head_entries es1 +:+ e +:+ tail_entries es2.
Proof.
  destruct es1 as [|e1 es1].
  - apply concat_tail.
  - rewrite <- app_comm_cons, concat_tail, tail_entries_app.
    unfold head_entries. rewrite concat_tail. cbn [tail_entries].
    by rewrite !string_app_assoc.
Qed.
End FieldFacts.

(** C6: the parameter named "hash" is never among the entries of the check
    string: it is not a key of the collected parameters, and the check
    string is the same whatever values, and however many, the hash
    parameter carries, or when it is absent. *)
Theorem C6_hash_excluded (q : gmap string (list string)) (vs : list string) :
  paramsMap q !! "hash" = None ∧
  ("hash" ∉ keys (paramsMap q)) ∧
  checkStr (<["hash" := vs]> q) = checkStr (delete "hash" q) ∧
  checkStr q = checkStr (delete "hash" q).
Proof.
  assert (paramsMap q !! "hash" = None) as Hnone.
  { rewrite paramsMap_lookup. unfold first_value. by rewrite decide_True. }
  split; [done|]. split.
  - rewrite elem_of_keys, Hnone. by intros [? ?].
  - split; apply checkStr_paramsMap, paramsMap_ext; intros k.
    + by rewrite first_value_insert_hash, first_value_delete_hash.
    + by rewrite first_value_delete_hash.
Qed.

(** C9: for a name other than "hash" with at least one value, the first
    value, and only it, is used: the collected parameter is that value,
    the check string has the entry [name=first value] at the name's place
    in the sorted order, and the later values do not influence the check
    string. A name with an empty value list is not collected, is no key,
    and the check string is the one of the map without that name. *)
Theorem C9_first_value_used (q : gmap string (list string)) (k : string) :
  k ≠ "hash" →
  (∀ v vs, q !! k = Some (v :: vs) →
     paramsMap q !! k = Some v ∧
     (∃ l1 l2, keys (paramsMap q) = l1 ++ k :: l2 ∧
        checkStr q =
          String.concat newline
            (((λ k', entry k' (value_of q k')) <$> l1) ++
             entry k v :: ((λ k', entry k' (value_of q k')) <$> l2))) ∧
     (∀ vs', checkStr (<[k := v :: vs']> q) = checkStr q)) ∧
  (q !! k = Some [] →
     paramsMap q !! k = None ∧ (k ∉ keys (paramsMap q)) ∧
     checkStr q = checkStr (delete k q)).
Proof.
  intros Hk. split.
  - intros v vs Hq.
    assert (paramsMap q !! k = Some v) as Hpm.
    { rewrite paramsMap_lookup. apply first_value_Some. eauto. }
    split; [done|]. split.
    + assert (k ∈ keys (paramsMap q)) as Hin by (apply elem_of_keys; eauto).
      apply list_elem_of_split in Hin as (l1 & l2 & Hl).
      exists l1, l2. split; [done|].
      rewrite checkStr_entries, entries_value_of, Hl, fmap_app, fmap_cons.
      unfold value_of at 2. by rewrite Hq.
    + intros vs'. apply checkStr_paramsMap, paramsMap_ext. intros k'.
      rewrite first_value_insert by done.
      destruct (decide (k' = k)) as [->|]; [|done].
      symmetry. apply first_value_Some. eauto.
  - intros Hq.
    assert (paramsMap q !! k = None) as Hpm.
    { rewrite paramsMap_lookup. unfold first_value.
      rewrite decide_False by done. by rewrite Hq. }
    split; [done|]. split.
    + rewrite elem_of_keys, Hpm. by intros [? ?].
    + apply checkStr_paramsMap, paramsMap_ext. intros k'.
      unfold first_value. destruct (decide (k' = "hash")); [done|].
      destruct (decide (k' = k)) as [->|].
      * by rewrite lookup_delete_eq, Hq.
      * by rewrite lookup_delete_ne.
Qed.

Definition q9 : gmap string (list string) :=
  <["a" := ["1"; "2"]]> (<["b" := []]> ∅).

Lemma C9_first_value_used_witness :
  "a" ≠ "hash" ∧ paramsMap q9 !! "a" = Some "1" ∧
  paramsMap (<["b" := []]> q9) !! "b" = None.
Proof.
  assert ("a" ≠ "hash") as Ha by done.
  assert ("b" ≠ "hash") as Hb by done.
  split; [done|]. split.
  - apply (proj1 (C9_first_value_used q9 "a" Ha) "1" ["2"]). reflexivity.
  - apply (proj2 (C9_first_value_used (<["b" := []]> q9) "b" Hb)).
    apply lookup_insert_eq.
Defined.

(** C7: the check string is determined by the name-to-value contents: two
    query maps with the same first values give byte-identical check
    strings, in whatever order the two loops over maps enumerate their
    entries and keys; and replacing the value of one name by a different
    value, all names staying the same, gives a different check string. *)
Theorem C7_deterministic_and_tamper_sensitive :
  (∀ (q1 q2 : gmap string (list string))
     (es1 es2 : list (string * list string)) (ks1 ks2 : list string),
     (∀ k, first_value q1 k = first_value q2 k) →
     es1 ≡ₚ map_to_list q1 → es2 ≡ₚ map_to_list q2 →
     ks1 ≡ₚ (map_to_list (collect es1)).*1 →
     ks2 ≡ₚ (map_to_list (collect es2)).*1 →
     checkStr_in_order es1 ks1 = checkStr_in_order es2 ks2) ∧
  (∀ (q : gmap string (list string)) (k v1 v2 : string)
     (r1 r2 : list string),
     k ≠ "hash" → q !! k = Some (v1 :: r1) → v1 ≠ v2 →
     keys (paramsMap (<[k := v2 :: r2]> q)) = keys (paramsMap q) ∧
     checkStr (<[k := v2 :: r2]> q) ≠ checkStr q).
Proof.
  split.
  - intros q1 q2 es1 es2 ks1 ks2 Hq He1 He2 Hk1 Hk2.
    rewrite (checkStr_in_order_eq q1), (checkStr_in_order_eq q2) by done.
    by apply checkStr_paramsMap, paramsMap_ext.
  - intros q k v1 v2 r1 r2 Hk Hq Hv.
    set (q' := <[k := v2 :: r2]> q).
    assert (keys (paramsMap q') = keys (paramsMap q)) as Hkeys.
    { apply strict_unique; try apply keys_strict.
      intros k'. rewrite !elem_of_keys, !paramsMap_lookup.
      unfold q'. rewrite first_value_insert by done.
      destruct (decide (k' = k)) as [->|]; [|done].
      split; [|by eauto]. intros _. exists v1. apply first_value_Some. eauto. }
    split; [done|]. intros Heq.
    rewrite !checkStr_entries, !entries_value_of, Hkeys in Heq.
    assert (k ∈ keys (paramsMap q)) as Hin.
    { apply elem_of_keys_paramsMap. split; eauto. }
    pose proof (keys_NoDup (paramsMap q)) as Hnd.
    apply list_elem_of_split in Hin as (l1 & l2 & Hl).
    rewrite Hl in Heq, Hnd.
    apply NoDup_app in Hnd as (_ & Hl1 & [Hl2 _]%NoDup_cons).
    assert (∀ l : list string, k ∉ l →
      (λ k', entry k' (value_of q' k')) <$> l =
      (λ k', entry k' (value_of q k')) <$> l) as Hsame.
    { intros l Hl'. apply list_fmap_ext. intros i k' Hk'.
      apply list_elem_of_lookup_2 in Hk'.
      unfold value_of, q'. rewrite lookup_insert_ne; [done|].
      by intros ->. }
    rewrite !fmap_app, !fmap_cons, !concat_split in Heq.
    assert (k ∉ l1) as Hl1' by (intros Hin; apply (Hl1 _ Hin); left).
    rewrite (Hsame l1 Hl1'), (Hsame l2 Hl2) in Heq.
    apply (inj (String.app _)) in Heq.
    unfold value_of at 1 3 in Heq. unfold q' in Heq.
    rewrite lookup_insert_eq, Hq in Heq. unfold entry in Heq.
    rewrite !string_app_assoc in Heq.
    do 2 apply (inj (String.app _)) in Heq.
    apply string_app_inv_tail in Heq. by subst.
Qed.

Definition q7 : gmap string (list string) :=
  <["b" := ["2"]]> (<["a" := ["1"; "x"]]> (<["hash" := ["00"]]> ∅)).

(** Two enumeration orders of the same map, and a changed value. *)
Lemma C7_deterministic_and_tamper_sensitive_witness :
  checkStr_in_order [("b", ["2"]); ("hash", ["00"]); ("a", ["1"; "x"])]
                    ["b"; "a"] =
  checkStr_in_order [("a", ["1"; "x"]); ("b", ["2"]); ("hash", ["00"])]
                    ["a"; "b"] ∧
  checkStr (<["a" := ["3"]]> q7) ≠ checkStr q7.
Proof.
  destruct C7_deterministic_and_tamper_sensitive as [Hdet Htamper].
  assert (map_to_list q7 ≡ₚ
          [("a", ["1"; "x"]); ("b", ["2"]); ("hash", ["00"])]) as Hq.
  { apply NoDup_Permutation.
    - apply NoDup_map_to_list.
    - by apply (bool_decide_unpack _); vm_compute.
    - intros [k v]. rewrite elem_of_map_to_list.
      unfold q7. rewrite !elem_of_cons, elem_of_nil.
      rewrite !lookup_insert, lookup_empty.
      repeat case_decide; naive_solver. }
  split.
  - apply (Hdet q7 q7); [done| | | |].
    + rewrite Hq. symmetry.
      apply (Permutation_cons_append [("b", ["2"]); ("hash", ["00"])]).
    + by rewrite Hq.
    + vm_compute. apply perm_swap.
    + vm_compute. apply Permutation_refl.
  - by apply (Htamper q7 "a" "1" "3" ["x"] []).
Defined.

(** C2: a signature computed as the lowercase hex HMAC-SHA-256, keyed with
    SHA-256 of the secret, of the canonical string of a parameter set
    without a hash entry, verifies when it is added as the hash
    parameter. *)
Theorem C2_round_trip (secret : string) (P : gmap string string) :
  P !! "hash" = None →
  let expected :=
    Hex.EncodeToString
      (HMAC.Sum (SHA256.Sum256 (Bytes.of_string secret))
                (Bytes.of_string (canonicalize P))) in
  VerifySignatureFromQuery (<["hash" := [expected]]> ((λ v, [v]) <$> P))
    secret = true.
Proof.
  intros HP expected. unfold VerifySignatureFromQuery.
  apply Equal_strings. unfold providedHash. rewrite lookup_insert_eq.
  unfold expectedHash, sign, secretKey, expected. do 4 f_equal.
  rewrite checkStr_canonicalize. unfold canonicalize.
  match goal with
  | |- context [delete "hash" (omap head ?q)] =>
      assert (delete "hash" (omap head q) = delete "hash" P) as ->; [|done]
  end.
  apply map_eq. intros k. rewrite !lookup_delete.
  destruct (decide ("hash" = k)) as [<-|Hne]; [done|].
  rewrite lookup_omap, lookup_insert_ne by done. rewrite lookup_fmap.
  by destruct (P !! k).
Qed.

Definition P2 : gmap string string :=
  <["user_id" := "42"]> (<["ts" := "1000000000"]> (<["app_id" := "7"]> ∅)).

Lemma C2_round_trip_witness :
  P2 !! "hash" = None ∧
  VerifySignatureFromQuery
    (<["hash" := [Hex.EncodeToString
         (HMAC.Sum (SHA256.Sum256 (Bytes.of_string "testsecret"))
                   (Bytes.of_string (canonicalize P2)))]]> ((λ v, [v]) <$> P2))
    "testsecret" = true.
Proof.
  assert (P2 !! "hash" = None) as H by reflexivity.
  split; [exact H | exact (C2_round_trip "testsecret" P2 H)].
Defined.

(** * The comparison *)

Section VerifyFacts.
Implicit Types (q : gmap string (list string)) (secret : string).

Lemma Verify_iff q secret :
  VerifySignatureFromQuery q secret = true ↔
  providedHash q = expectedHash q secret.
Proof.
  unfold VerifySignatureFromQuery. rewrite Equal_strings. naive_solver.
Qed.

Lemma expectedHash_length q secret :
  String.length (expectedHash q secret) = 64%nat.
Proof.
  unfold expectedHash, sign. by rewrite EncodeToString_length, HMAC_length.
Qed.

Lemma expectedHash_lower q secret : lower_hex (expectedHash q secret).
Proof. apply EncodeToString_lower, HMAC_bytes. Qed.

Lemma Verify_empty q secret :
  providedHash q = "" → VerifySignatureFromQuery q secret = false.
Proof.
  intros Hp. apply not_true_is_false. rewrite Verify_iff, Hp. intros He.
  pose proof (expectedHash_length q secret) as Hl. by rewrite <- He in Hl.
Qed.
End VerifyFacts.

(** C3: VerifySignatureFromQuery returns true exactly when the first value
    of the hash parameter equals, as a whole string, the computed
    signature, which is 64 lowercase hexadecimal digits; it returns false
    when the hash parameter is absent, has no value, or has the empty
    string as its first value. The result is a boolean for every input. *)
Theorem C3_true_only_on_exact_match (q : gmap string (list string))
    (secret : string) :
  let computed :=
    Hex.EncodeToString
      (HMAC.Sum (SHA256.Sum256 (Bytes.of_string secret))
                (Bytes.of_string (checkStr q))) in
  (VerifySignatureFromQuery q secret = true ↔
     ∃ vs, q !! "hash" = Some (computed :: vs)) ∧
  String.length computed = 64%nat ∧ lower_hex computed ∧
  (q !! "hash" = None → VerifySignatureFromQuery q secret = false) ∧
  (q !! "hash" = Some [] → VerifySignatureFromQuery q secret = false) ∧
  (∀ vs, q !! "hash" = Some ("" :: vs) →
     VerifySignatureFromQuery q secret = false).
Proof.
  intros computed. change computed with (expectedHash q secret).
  split; [|split; [apply expectedHash_length|split; [apply expectedHash_lower|]]].
  - rewrite Verify_iff. unfold providedHash. split.
    + intros H. destruct (q !! "hash") as [[|v vs]|] eqn:E.
      * pose proof (expectedHash_length q secret) as Hl.
        by rewrite <- H in Hl.
      * exists vs. by rewrite H.
      * pose proof (expectedHash_length q secret) as Hl.
        by rewrite <- H in Hl.
    + by intros [vs ->].
  - repeat split; intros; apply Verify_empty; unfold providedHash;
      by match goal with H : q !! "hash" = _ |- _ => rewrite H end.
Qed.

(** * A known-answer test *)

Definition q8 : gmap string (list string) :=
  <["user_id" := ["42"]]> (<["ts" := ["1000000000"]]> (<["app_id" := ["7"]]> ∅)).

Definition canonical8 : string :=
  "app_id=7" +:+ newline +:+ "ts=1000000000" +:+ newline +:+ "user_id=42".

Definition signature8 : string :=
  "86f4fd6b771fd2a3cbc8009cf971ce1b968d6196499082c079b6bbd0cdd974ac".

(** C8: for the parameters user_id = 42, ts = 1000000000, app_id = 7 the
    keys are taken in the order app_id, ts, user_id and the check string is
    exactly the three entries joined by newlines; with the secret
    "testsecret" the expected signature is the lowercase hex HMAC-SHA-256 of
    that string keyed with SHA-256("testsecret"), whose value is pinned
    here, and the request carrying it verifies. *)
Theorem C8_interoperability_vector :
  keys (paramsMap q8) = ["app_id"; "ts"; "user_id"] ∧
  checkStr q8 = canonical8 ∧
  expectedHash q8 "testsecret" =
    Hex.EncodeToString
      (HMAC.Sum (SHA256.Sum256 (Bytes.of_string "testsecret"))
                (Bytes.of_string canonical8)) ∧
  expectedHash q8 "testsecret" = signature8 ∧
  VerifySignatureFromQuery (<["hash" := [signature8]]> q8) "testsecret" = true.
Proof. split; [|split; [|split; [|split]]]; vm_compute; reflexivity. Qed.

(** Known answers of the library models (FIPS 180-4 "abc", the empty
    message, a multi-block message, and an HMAC with a key longer than the
    block size). *)
Example Sum256_abc :
  Hex.EncodeToString (SHA256.Sum256 (Bytes.of_string "abc")) =
  "ba7816bf8f01cfea414140de5dae2223b00361a396177a9cb410ff61f20015ad".
Proof. vm_compute. reflexivity. Qed.

Example Sum256_empty :
  Hex.EncodeToString (SHA256.Sum256 []) =
  "e3b0c44298fc1c149afbf4c8996fb92427ae41e4649b934ca495991b7852b855".
Proof. vm_compute. reflexivity. Qed.

Example Sum256_multi_block :
  Hex.EncodeToString (SHA256.Sum256 (repeat 97 200)) =
  "c2a908d98f5df987ade41b5fce213067efbcc21ef2240212a41e54b5e7c28ae5".
Proof. vm_compute. reflexivity. Qed.

Example HMAC_long_key :
  Hex.EncodeToString (HMAC.Sum (repeat 107 100) (repeat 97 120)) =
  "b2bc732e1c9e582b5626680925d4967e8762113e26a8c3d8d0b1ca270324b982".
Proof. vm_compute. reflexivity. Qed.

Example sign_empty_message :
  sign "testsecret" "" =
  "4d761faea5893bb4b8c415139dca8a152a7d72a9544109394ca401ca04bb7771".
Proof. vm_compute. reflexivity. Qed.

(** * Timestamps *)

(** A decimal digit of a Go string. *)
Definition is_digit (c : ascii) : bool :=
  (48 <=? Bytes.of_ascii c) && (Bytes.of_ascii c <=? 57).

(** The unbounded value of a string of decimal digits read after the
    digits worth [acc]; [None] when a character is no digit. *)
Fixpoint decimal (acc : Z) (s : string) : option Z :=
  match s with
  | EmptyString => Some acc
  | String c s' =>
      if is_digit c then decimal (10 * acc + (Bytes.of_ascii c - 48)) s'
      else None
  end.

(** What it means for a text to parse as a base-10 signed 64-bit integer:
    an optional sign, at least one digit, only digits, and a value between
    [-2^63] and [2^63 - 1]. *)
Definition signed_value (neg : bool) (body : string) : option Z :=
  match body with
  | EmptyString => None
  | _ =>
      match decimal 0 body with
      | Some v =>
          let n := if neg then - v else v in
          if (- 2 ^ 63 <=? n) && (n <=? 2 ^ 63 - 1) then Some n else None
      | None => None
      end
  end.

Definition int64_literal (s : string) : option Z :=
  match s with
  | EmptyString => None
  | String c b =>
      if Ascii.eqb c "+" then signed_value false b
      else if Ascii.eqb c "-" then signed_value true b
      else signed_value false s
  end.

Section ParseFacts.
Implicit Types (s : string) (n v : Z).

Lemma digit_val_10 (c : ascii) :
  Strconv.digit_val 10 (Bytes.of_ascii c) =
    if is_digit c then Some (Bytes.of_ascii c - 48) else None.
Proof.
  unfold Strconv.digit_val, is_digit.
  destruct ((48 <=? Bytes.of_ascii c) && (Bytes.of_ascii c <=? 57)) eqn:E.
  - apply andb_true_iff in E as [?%Z.leb_le ?%Z.leb_le].
    destruct (10 <=? Bytes.of_ascii c - 48) eqn:E'; [|done].
    apply Z.leb_le in E'. lia.
  - destruct ((97 <=? Strconv.lower (Bytes.of_ascii c)) &&
              (Strconv.lower (Bytes.of_ascii c) <=? 122)) eqn:E'; [|done].
    apply andb_true_iff in E' as [?%Z.leb_le ?%Z.leb_le].
    unfold Bytes.byte. rewrite Z.mod_small by lia.
    destruct (10 <=? _) eqn:E''; [done|]. apply Z.leb_gt in E''. lia.
Qed.

Lemma is_digit_range (c : ascii) :
  is_digit c = true → 0 <= Bytes.of_ascii c - 48 <= 9.
Proof.
  unfold is_digit. intros [?%Z.leb_le ?%Z.leb_le]%andb_true_iff. lia.
Qed.

Lemma decimal_ge s n v : 0 <= n → decimal n s = Some v → n <= v.
Proof.
  revert n. induction s as [|c s IH]; intros n Hn H; cbn [decimal] in H.
  - injection H as ->. lia.
  - destruct (is_digit c) eqn:Hc; [|done].
    apply is_digit_range in Hc. apply IH in H; lia.
Qed.

Lemma loop_cons (c : ascii) s n :
  Strconv.ParseUint_loop 10 (2 ^ 64 - 1) n (Bytes.of_string (String c s)) =
    if is_digit c then
      if Strconv.maxUint64 / 10 + 1 <=? n
      then (2 ^ 64 - 1, Some Strconv.ErrRange)
      else
        let n10 := (n * 10) mod 2 ^ 64 in
        if ((n10 + (Bytes.of_ascii c - 48)) mod 2 ^ 64 <? n10)
           || (2 ^ 64 - 1 <? (n10 + (Bytes.of_ascii c - 48)) mod 2 ^ 64)
        then (2 ^ 64 - 1, Some Strconv.ErrRange)
        else Strconv.ParseUint_loop 10 (2 ^ 64 - 1)
               ((n10 + (Bytes.of_ascii c - 48)) mod 2 ^ 64)
               (Bytes.of_string s)
    else (0, Some Strconv.ErrSyntax).
Proof.
  cbn [Bytes.of_string Strconv.ParseUint_loop]. rewrite digit_val_10.
  by destruct (is_digit c).
Qed.

(** The digits fit: the loop returns their value. *)
Lemma loop_value s n v :
  0 <= n → decimal n s = Some v → v <= Strconv.maxUint64 →
  Strconv.ParseUint_loop 10 (2 ^ 64 - 1) n (Bytes.of_string s) = (v, None).
Proof.
  unfold Strconv.maxUint64.
  revert n. induction s as [|c s IH]; intros n Hn H Hv.
  - cbn [decimal Bytes.of_string Strconv.ParseUint_loop] in *.
    by injection H as ->.
  - rewrite loop_cons. cbn [decimal] in H. destruct (is_digit c) eqn:Hc; [|done].
    pose proof (is_digit_range c Hc) as Hd.
    assert (10 * n + (Bytes.of_ascii c - 48) <= v) as Hge
      by (apply (decimal_ge s); [lia|done]).
    unfold Strconv.maxUint64.
    change (2 ^ 64) with 18446744073709551616 in *.
    change ((18446744073709551616 - 1) / 10 + 1) with 1844674407370955162.
    rewrite (proj2 (Z.leb_gt _ _)) by lia. cbv zeta.
    rewrite (Z.mod_small (n * 10)) by lia.
    rewrite (Z.mod_small (n * 10 + _)) by lia.
    rewrite (proj2 (Z.ltb_ge _ _)) by lia.
    rewrite (proj2 (Z.ltb_ge _ _)) by lia. cbn [orb].
    apply IH; [lia| |lia]. by rewrite Z.mul_comm.
Qed.

(** The digits do not fit: a range error with the maximal value. *)
Lemma loop_range s n v :
  0 <= n <= Strconv.maxUint64 → decimal n s = Some v → Strconv.maxUint64 < v →
  Strconv.ParseUint_loop 10 (2 ^ 64 - 1) n (Bytes.of_string s) =
    (2 ^ 64 - 1, Some Strconv.ErrRange).
Proof.
  unfold Strconv.maxUint64.
  revert n. induction s as [|c s IH]; intros n Hn H Hv.
  - cbn [decimal] in H. injection H as ->. lia.
  - rewrite loop_cons. cbn [decimal] in H. destruct (is_digit c) eqn:Hc; [|done].
    pose proof (is_digit_range c Hc) as Hd.
    unfold Strconv.maxUint64.
    change (2 ^ 64) with 18446744073709551616 in *.
    change ((18446744073709551616 - 1) / 10 + 1) with 1844674407370955162.
    destruct (1844674407370955162 <=? n) eqn:E1; [done|].
    apply Z.leb_gt in E1. cbv zeta.
    rewrite (Z.mod_small (n * 10)) by lia.
    destruct (_ || _) eqn:E2; [done|].
    apply orb_false_iff in E2 as [E2%Z.ltb_ge E3%Z.ltb_ge].
    assert (n * 10 + (Bytes.of_ascii c - 48) < 18446744073709551616) as Hlt.
    { destruct (decide (n * 10 + (Bytes.of_ascii c - 48)
                        < 18446744073709551616)) as [|Hge]; [done|exfalso].
      assert ((n * 10 + (Bytes.of_ascii c - 48)) mod 18446744073709551616 =
              n * 10 + (Bytes.of_ascii c - 48) - 18446744073709551616) as Hm.
      { symmetry. apply (Z.mod_unique _ _ 1); lia. }
      lia. }
    rewrite Z.mod_small by lia.
    apply IH; [lia| |lia]. by rewrite Z.mul_comm.
Qed.

(** A character that is no digit: an error, maximal when a range error. *)
Lemma loop_syntax s n :
  0 <= n <= Strconv.maxUint64 → decimal n s = None →
  ∃ un e, Strconv.ParseUint_loop 10 (2 ^ 64 - 1) n (Bytes.of_string s)
            = (un, Some e) ∧ (e = Strconv.ErrRange → un = 2 ^ 64 - 1).
Proof.
  unfold Strconv.maxUint64.
  revert n. induction s as [|c s IH]; intros n Hn H; [done|].
  rewrite loop_cons. cbn [decimal] in H.
  destruct (is_digit c) eqn:Hc; [|by eexists _, _].
  pose proof (is_digit_range c Hc) as Hd.
  unfold Strconv.maxUint64.
  change (2 ^ 64) with 18446744073709551616 in *.
  change ((18446744073709551616 - 1) / 10 + 1) with 1844674407370955162.
  destruct (_ <=? n) eqn:E1; [by eexists _, _|].
  apply Z.leb_gt in E1. cbv zeta.
  rewrite (Z.mod_small (n * 10)) by lia.
  destruct (_ || _) eqn:E2; [by eexists _, _|].
  apply orb_false_iff in E2 as [E2%Z.ltb_ge E3%Z.ltb_ge].
  assert (n * 10 + (Bytes.of_ascii c - 48) < 18446744073709551616) as Hlt.
  { pose proof (Z.mod_pos_bound (n * 10 + (Bytes.of_ascii c - 48))
                  18446744073709551616 ltac:(lia)).
    destruct (decide (n * 10 + (Bytes.of_ascii c - 48)
                      < 18446744073709551616)) as [|Hge]; [done|exfalso].
    destruct (decide (n * 10 + (Bytes.of_ascii c - 48)
                      < 2 * 18446744073709551616)).
    - assert ((n * 10 + (Bytes.of_ascii c - 48)) mod 18446744073709551616 =
              n * 10 + (Bytes.of_ascii c - 48) - 18446744073709551616) as Hm.
      { symmetry. apply (Z.mod_unique _ _ 1); lia. }
      lia.
    - lia. }
  rewrite Z.mod_small by lia.
  apply IH; [lia|]. by rewrite Z.mul_comm.
Qed.

Lemma int64_small (x : Z) : - 2 ^ 63 <= x < 2 ^ 63 → Strconv.int64 x = x.
Proof.
  intros Hx. unfold Strconv.int64.
  change (2 ^ 64) with 18446744073709551616 in *.
  change (2 ^ 63) with 9223372036854775808 in *.
  rewrite Z.mod_small; lia.
Qed.

(** The outcome of a parse: the value of a literal, an error otherwise. *)
Definition parses_as (r : Z * option Strconv.NumError) (o : option Z) : Prop :=
  match o with
  | Some n => r = (n, None)
  | None => ∃ v e, r = (v, Some e)
  end.

Lemma convert_spec (neg : bool) s :
  parses_as (Strconv.convert neg s) (signed_value neg s).
Proof.
  unfold Strconv.convert, signed_value.
  destruct s as [|c s]; [by eexists _, _|].
  unfold Strconv.ParseUint. generalize (String c s). clear c s. intros s.
  destruct (decimal 0 s) as [v|] eqn:Hd.
  - assert (0 <= v) as Hv by (by apply (decimal_ge s 0 v)).
    destruct (decide (v <= Strconv.maxUint64)) as [Hle|Hgt].
    + rewrite (loop_value s 0 v ltac:(done) Hd Hle).
      unfold Strconv.maxUint64 in Hle.
      change (2 ^ 64) with 18446744073709551616 in *.
      change (2 ^ 63) with 9223372036854775808 in *.
      destruct neg; cbn [negb andb].
      * destruct (9223372036854775808 <? v) eqn:E.
        { apply Z.ltb_lt in E. rewrite (proj2 (andb_false_iff _ _)).
          - by eexists _, _.
          - left. apply Z.leb_gt. lia. }
        apply Z.ltb_ge in E.
        rewrite (proj2 (andb_true_iff _ _))
          by (split; apply Z.leb_le; lia).
        cbn. f_equal.
        destruct (decide (v = 9223372036854775808)) as [->|]; [done|].
        rewrite (int64_small v), int64_small;
          change (2 ^ 63) with 9223372036854775808; lia.
      * destruct (9223372036854775808 <=? v) eqn:E.
        { apply Z.leb_le in E. rewrite (proj2 (andb_false_iff _ _)).
          - by eexists _, _.
          - right. apply Z.leb_gt. lia. }
        apply Z.leb_gt in E.
        rewrite (proj2 (andb_true_iff _ _))
          by (split; apply Z.leb_le; lia).
        cbn. f_equal. apply int64_small.
        change (2 ^ 63) with 9223372036854775808. lia.
    + rewrite (loop_range s 0 v ltac:(done) Hd) by lia.
      unfold Strconv.maxUint64 in Hgt.
      change (2 ^ 64) with 18446744073709551616 in *.
      change (2 ^ 63) with 9223372036854775808 in *.
      destruct neg; cbn [negb andb].
      * rewrite (proj2 (andb_false_iff _ _)) by (left; apply Z.leb_gt; lia).
        by eexists _, _.
      * rewrite (proj2 (andb_false_iff _ _)) by (right; apply Z.leb_gt; lia).
        by eexists _, _.
  - destruct (loop_syntax s 0 ltac:(done) Hd) as (un & e & -> & He).
    destruct e; [by eexists _, _|]. rewrite He by done.
    destruct neg; by eexists _, _.
Qed.

(** [ParseInt] succeeds exactly on the literals of a signed 64-bit integer,
    with their value. *)
Lemma ParseInt_spec s : parses_as (Strconv.ParseInt s) (int64_literal s).
Proof.
  unfold Strconv.ParseInt, int64_literal.
  destruct s as [|c s]; [by eexists _, _|].
  repeat case_match; apply convert_spec.
Qed.

Lemma int64_literal_range s n :
  int64_literal s = Some n → - 2 ^ 63 <= n <= 2 ^ 63 - 1.
Proof.
  assert (∀ neg b, signed_value neg b = Some n → - 2 ^ 63 <= n <= 2 ^ 63 - 1)
    as H.
  { intros neg b. unfold signed_value. destruct b; [done|].
    destruct (decimal 0 _); [|done].
    destruct (_ && _) eqn:E; [|done].
    apply andb_true_iff in E as [?%Z.leb_le ?%Z.leb_le].
    intros [= <-]. lia. }
  unfold int64_literal. destruct s; [done|]. repeat case_match; apply H.
Qed.
End ParseFacts.

Section TimestampFacts.
Implicit Types (now ts : Z) (s : string).

Lemma ValidateTimestamp_error now s :
  int64_literal s = None → ValidateTimestamp now s = false.
Proof.
  intros H. pose proof (ParseInt_spec s) as Hp. rewrite H in Hp.
  destruct Hp as (v & e & Hp). unfold ValidateTimestamp. by rewrite Hp.
Qed.

Lemma ValidateTimestamp_parsed now s ts :
  int64_literal s = Some ts →
  ValidateTimestamp now s =
    negb (sub64 now ts <? -60) && negb (SIGNATURE_MAX_AGE <? sub64 now ts).
Proof.
  intros H. pose proof (ParseInt_spec s) as Hp. rewrite H in Hp. cbn in Hp.
  unfold ValidateTimestamp. rewrite Hp.
  by destruct (_ <? -60), (SIGNATURE_MAX_AGE <? _).
Qed.

(** The age as [int64] is the true difference or off by [2^64]. *)
Lemma sub64_cases now ts :
  - 2 ^ 63 <= now <= 2 ^ 63 - 1 → - 2 ^ 63 <= ts <= 2 ^ 63 - 1 →
  sub64 now ts = now - ts ∨ sub64 now ts = now - ts - 2 ^ 64 ∨
  sub64 now ts = now - ts + 2 ^ 64.
Proof.
  intros Hn Ht. unfold sub64, Strconv.int64.
  change (2 ^ 64) with 18446744073709551616 in *.
  change (2 ^ 63) with 9223372036854775808 in *.
  destruct (decide (now - ts < - 9223372036854775808)).
  - right. right.
    rewrite <- (Z.mod_unique (now - ts + 9223372036854775808)
                  18446744073709551616 (-1)
                  (now - ts + 9223372036854775808 + 18446744073709551616));
      lia.
  - destruct (decide (now - ts < 9223372036854775808)).
    + left. rewrite Z.mod_small; lia.
    + right. left.
      rewrite <- (Z.mod_unique (now - ts + 9223372036854775808)
                    18446744073709551616 1
                    (now - ts + 9223372036854775808 - 18446744073709551616));
        lia.
Qed.

Lemma sub64_range now ts :
  - 2 ^ 63 <= sub64 now ts <= 2 ^ 63 - 1.
Proof.
  unfold sub64, Strconv.int64.
  pose proof (Z.mod_pos_bound (now - ts + 2 ^ 63) (2 ^ 64) ltac:(done)).
  change (2 ^ 64) with 18446744073709551616 in *.
  change (2 ^ 63) with 9223372036854775808 in *. lia.
Qed.

Lemma ValidateTimestamp_window now s :
  - 2 ^ 63 + 300 <= now <= 2 ^ 63 - 61 →
  (ValidateTimestamp now s = true ↔
   ∃ ts, int64_literal s = Some ts ∧ -60 <= now - ts <= 300).
Proof.
  intros Hnow. destruct (int64_literal s) as [ts|] eqn:Hs.
  - rewrite (ValidateTimestamp_parsed _ _ _ Hs).
    pose proof (int64_literal_range _ _ Hs) as Hts.
    change (2 ^ 63) with 9223372036854775808 in *.
    assert (- 2 ^ 63 <= now <= 2 ^ 63 - 1) as Hnow'
      by (change (2 ^ 63) with 9223372036854775808; lia).
    pose proof (sub64_cases now ts Hnow'
      ltac:(change (2 ^ 63) with 9223372036854775808; lia)) as Hc.
    pose proof (sub64_range now ts) as Hr.
    change (2 ^ 63) with 9223372036854775808 in *.
    change (2 ^ 64) with 18446744073709551616 in *.
    unfold SIGNATURE_MAX_AGE.
    rewrite andb_true_iff, !negb_true_iff, !Z.ltb_ge. split.
    + intros [H1 H2]. exists ts. split; [done|]. lia.
    + intros (? & [= <-] & H). lia.
  - rewrite (ValidateTimestamp_error _ _ Hs). split; [done|].
    by intros (? & ? & _).
Qed.
End TimestampFacts.

(** The acceptance condition on the age the code computes, at any clock
    reading. *)
Lemma ValidateTimestamp_age (now : Z) (s : string) :
  ValidateTimestamp now s = true ↔
  ∃ ts, int64_literal s = Some ts ∧
        -60 <= sub64 now ts <= SIGNATURE_MAX_AGE.
Proof.
  destruct (int64_literal s) as [ts|] eqn:Hs.
  - rewrite (ValidateTimestamp_parsed _ _ _ Hs).
    rewrite andb_true_iff, !negb_true_iff, !Z.ltb_ge. split.
    + intros [H1 H2]. by exists ts.
    + by intros (? & [= <-] & H).
  - rewrite (ValidateTimestamp_error _ _ Hs). split; [done|].
    by intros (? & ? & _).
Qed.

(** C4: while the clock reading [now] is away from the ends of the 64-bit
    range, ValidateTimestamp accepts exactly when the text is the literal
    of a signed 64-bit integer [ts] and [-60 <= now - ts <= 300]; so it is
    true at age 300 and at age -60, false at age 301 and at age -61. *)
Theorem C4_freshness_boundaries (now : Z) (s : string) :
  - 2 ^ 63 + 300 <= now <= 2 ^ 63 - 61 →
  (ValidateTimestamp now s = true ↔
   ∃ ts, int64_literal s = Some ts ∧ -60 <= now - ts <= SIGNATURE_MAX_AGE) ∧
  (∀ ts, int64_literal s = Some ts →
     (now - ts = 300 → ValidateTimestamp now s = true) ∧
     (now - ts = 301 → ValidateTimestamp now s = false) ∧
     (now - ts = -60 → ValidateTimestamp now s = true) ∧
     (now - ts = -61 → ValidateTimestamp now s = false)).
Proof.
  intros Hnow. pose proof (ValidateTimestamp_window now s Hnow) as Hw.
  split; [exact Hw|]. intros ts Hs.
  repeat split; intros Hage.
  - apply Hw. exists ts. split; [done|lia].
  - apply not_true_is_false. rewrite Hw. intros (ts' & Hs' & H).
    rewrite Hs in Hs'. injection Hs' as <-. lia.
  - apply Hw. exists ts. split; [done|lia].
  - apply not_true_is_false. rewrite Hw. intros (ts' & Hs' & H).
    rewrite Hs in Hs'. injection Hs' as <-. lia.
Qed.

Lemma C4_freshness_boundaries_witness :
  ValidateTimestamp 1000000300 "1000000000" = true ∧
  ValidateTimestamp 1000000301 "1000000000" = false ∧
  ValidateTimestamp 999999940 "1000000000" = true ∧
  ValidateTimestamp 999999939 "1000000000" = false.
Proof.
  assert (int64_literal "1000000000" = Some 1000000000) as Hs
    by (vm_compute; reflexivity).
  assert (∀ now, 1 <= now <= 2000000000 →
            - 2 ^ 63 + 300 <= now <= 2 ^ 63 - 61) as Hclock
    by (intros now; change (2 ^ 63) with 9223372036854775808; lia).
  split; [|split; [|split]].
  - destruct (proj2 (C4_freshness_boundaries 1000000300 "1000000000"
      (Hclock 1000000300 ltac:(lia))) 1000000000 Hs) as (H & _). by apply H.
  - destruct (proj2 (C4_freshness_boundaries 1000000301 "1000000000"
      (Hclock 1000000301 ltac:(lia))) 1000000000 Hs) as (_ & H & _). by apply H.
  - destruct (proj2 (C4_freshness_boundaries 999999940 "1000000000"
      (Hclock 999999940 ltac:(lia))) 1000000000 Hs) as (_ & _ & H & _). by apply H.
  - destruct (proj2 (C4_freshness_boundaries 999999939 "1000000000"
      (Hclock 999999939 ltac:(lia))) 1000000000 Hs) as (_ & _ & _ & H). by apply H.
Defined.

(** At a clock reading at the very end of the 64-bit range the subtraction
    wraps around, and a timestamp about [2^64] seconds away is accepted. *)
Example ValidateTimestamp_wraps_at_clock_end :
  ValidateTimestamp (2 ^ 63 - 1) "-9223372036854775808" = true.
Proof. vm_compute. reflexivity. Qed.

(** C5: a timestamp text that is not the literal of a base-10 signed 64-bit
    integer (no digits, a character that is no digit, or a value outside
    the 64-bit range) makes [strconv.ParseInt] return an error and
    ValidateTimestamp return false, at every clock reading; the function
    is total, so nothing is raised. *)
Theorem C5_malformed_timestamp_rejected (now : Z) (s : string) :
  int64_literal s = None →
  (∃ v e, Strconv.ParseInt s = (v, Some e)) ∧
  ValidateTimestamp now s = false.
Proof.
  intros H. split; [|by apply ValidateTimestamp_error].
  pose proof (ParseInt_spec s) as Hp. by rewrite H in Hp.
Qed.

Lemma C5_malformed_timestamp_rejected_witness :
  ValidateTimestamp 1000000000 "" = false ∧
  ValidateTimestamp 1000000000 "not-a-number" = false ∧
  ValidateTimestamp 1000000000 "9223372036854775808" = false ∧
  ValidateTimestamp 1000000000 "-9223372036854775809" = false ∧
  ValidateTimestamp 1000000000 "99999999999999999999999999" = false.
Proof.
  split; [|split; [|split; [|split]]].
  - apply (λ H, proj2 (C5_malformed_timestamp_rejected 1000000000 "" H)). reflexivity.
  - apply (λ H, proj2 (C5_malformed_timestamp_rejected 1000000000 "not-a-number" H)).
    reflexivity.
  - apply (λ H, proj2 (C5_malformed_timestamp_rejected 1000000000 "9223372036854775808" H)).
    vm_compute. reflexivity.
  - apply (λ H, proj2 (C5_malformed_timestamp_rejected 1000000000 "-9223372036854775809" H)).
    vm_compute. reflexivity.
  - apply (λ H, proj2 (C5_malformed_timestamp_rejected 1000000000
             "99999999999999999999999999" H)).
    vm_compute. reflexivity.
Defined.

(** * The rest of main.go: API client and HTTP handlers *)

(** ** Library models: [url.Values.Get] and the [%d] verb of [fmt] *)

Module Url.
(** [v.Get(key)]: the first value of the key, or the empty string. *)
Definition Get (v : gmap string (list string)) (key : string) : string :=
  match v !! key with
  | Some (v0 :: _) => v0
  | _ => ""
  end.
End Url.

Module Fmt.
Local Open Scope Z_scope.

(** [byte('0' + u)] *)
Definition chr (u : Z) : ascii := ascii_of_N (Z.to_N (Bytes.byte (48 + u))).

(** The digit loop of [fmtInteger] in base 10, filling the buffer from
    the right: [for u >= 10 { next := u / 10; buf[i] = '0' + u - next*10;
    u = next }; buf[i] = digits[u]]. A [uint64] has at most twenty digits,
    which bounds the number of iterations. *)
Fixpoint digits (fuel : nat) (u : Z) (buf : string) : string :=
  match fuel with
  | O => buf
  | S fuel' =>
      if 10 <=? u then
        let next := u / 10 in
        digits fuel' next (String (chr (u - next * 10)) buf)
      else String (chr u) buf
  end.

(** [fmt.Sprintf("%d", n)] for an [int64]: the magnitude is taken in
    [uint64], the sign is written in front. *)
Definition FormatInt (n : Z) : string :=
  let negative := n <? 0 in
  let u := if negative then (- n) mod 2 ^ 64 else n in
  (if negative then "-" else "") +:+ digits 20 u "".
End Fmt.

(** ** Data structures *)

Record UserParams := {
  AppID : string;
  UserID : string;
  Timestamp : string;
  FirstName : string;
  LastName : string;
  Hash : string
}.

Module Transaction.
Record t := {
  ID : Z;
  Amount : Z;
  Currency : string;
  UserID : Z;
  CreatedAt : Z;
  Status : string;
  Title : string
}.
End Transaction.

Module CreatePurchaseRequest.
Record t := {
  Amount : Z;
  Currency : string;
  Title : string;
  UserID : Z
}.
End CreatePurchaseRequest.

Record PageData := {
  User : UserParams;
  Transactions : list Transaction.t;
  Error : string;
  IsAuthorized : bool
}.

Definition APP_ID : string := "YOUR_APP_ID".
Definition APP_SECRET : string := "YOUR_APP_SECRET".
Definition TON_PLACE_API : string := "https://api.tonplace.net".

(** ** The upstream HTTP exchange *)

(** A Go result [(value, err)]; an error is represented by its message. *)
Inductive result (A : Type) : Type :=
  | Ok (a : A)
  | Err (msg : string).
Arguments Ok {A} a.
Arguments Err {A} msg.

(** The request handed to [client.Do]. *)
Record Request := {
  Method : string;
  URL : string;
  Header : gmap string (list string);
  Body : string
}.

(** [req.Header.Set(key, value)]; the keys set in this program are already
    in canonical MIME form. *)
Definition Header_Set (h : gmap string (list string)) (key value : string)
  : gmap string (list string) :=
  <[key := [value]]> h.

(** What comes back from [client.Do] followed by [io.ReadAll]. *)
Inductive Reply :=
  | DoError (err : string)
  | ReadError (StatusCode : Z) (err : string)
  | Response (StatusCode : Z) (body : string).

Definition StatusOK : Z := 200.
Definition StatusMethodNotAllowed : Z := 405.

(** The three headers both client functions set. *)
Definition auth_headers (appID secret : string) : gmap string (list string) :=
  Header_Set (Header_Set (Header_Set ∅ "App-Id" appID) "Secret" secret)
             "Content-Type" "application/json".

(** An inbound request as the handlers read it: method, [r.URL.Path],
    [r.URL.Query()] and the body. *)
Record HttpRequest := {
  ReqMethod : string;
  Path : string;
  Query : gmap string (list string);
  ReqBody : string
}.

(** What a handler writes: [http.NotFound], [http.Error], the page
    rendered from its data, or a JSON document. *)
Inductive JsonBody :=
  | JsonError (msg : string)
  | JsonPurchase (purchase_id : Z)
  | JsonTransactions (transactions : list Transaction.t).

Inductive HttpResponse :=
  | NotFound
  | HttpError (code : Z) (msg : string)
  | Html (data : PageData)
  | Json (body : JsonBody).

(** The body of [handleCreatePurchase]'s request after decoding. *)
Record PurchaseForm := {
  form_UserID : Z;
  form_Amount : Z;
  form_Title : string
}.

Section Handlers.
(** The network and the JSON codec are outside the program: the exchange
    performed by [client.Do] and [io.ReadAll], [json.Unmarshal] into the two
    response structures, [json.Marshal] of the request structure and the
    decoder of the inbound body. *)
Variable Do : Request → Reply.
Variable Unmarshal_transactions : string → result (list Transaction.t).
Variable Unmarshal_purchase : string → result Z.
Variable Marshal : CreatePurchaseRequest.t → string.
Variable Decode : string → result PurchaseForm.

(** The request GetTransactions builds. [http.NewRequest] fails only on an
    invalid method or a URL that does not parse; with the method "GET" and
    this URL (a constant followed by a decimal number) it does not, so its
    error branch is not represented. *)
Definition GetTransactions_request (appID secret : string) (userID : Z)
  : Request :=
  {| Method := "GET";
     URL := TON_PLACE_API +:+ "/apps/purchases?count=50&userId="
              +:+ Fmt.FormatInt userID;
     Header := auth_headers appID secret;
     Body := "" |}.

Definition GetTransactions (appID secret : string) (userID : Z)
  : result (list Transaction.t) :=
  match Do (GetTransactions_request appID secret userID) with
  | DoError err => Err ("request failed: " +:+ err)
  | ReadError _ err => Err ("failed to read response: " +:+ err)
  | Response code body =>
      if negb (code =? StatusOK)
      then Err ("API returned status " +:+ Fmt.FormatInt code +:+ ": " +:+ body)
      else match Unmarshal_transactions body with
           | Err e => Err ("failed to parse response: " +:+ e)
           | Ok transactions => Ok transactions
           end
  end.

(** The request CreatePurchase builds. [json.Marshal] of a structure of
    integers and strings and [http.NewRequest] with the method "POST" and a
    constant URL do not fail, so their error branches are not
    represented. *)
Definition CreatePurchase_request (appID secret : string)
    (userID amount : Z) (title : string) : Request :=
  let reqBody :=
    {| CreatePurchaseRequest.Amount := amount;
       CreatePurchaseRequest.Currency := "eur";
       CreatePurchaseRequest.Title := title;
       CreatePurchaseRequest.UserID := userID |} in
  {| Method := "POST";
     URL := TON_PLACE_API +:+ "/apps/purchase/create";
     Header := auth_headers appID secret;
     Body := Marshal reqBody |}.

Definition CreatePurchase (appID secret : string) (userID amount : Z)
    (title : string) : result Z :=
  match Do (CreatePurchase_request appID secret userID amount title) with
  | DoError err => Err ("request failed: " +:+ err)
  | ReadError _ err => Err ("failed to read response: " +:+ err)
  | Response code body =>
      if negb (code =? StatusOK)
      then Err ("API returned status " +:+ Fmt.FormatInt code +:+ ": " +:+ body)
      else match Unmarshal_purchase body with
           | Err e => Err ("failed to parse response: " +:+ e)
           | Ok purchaseID => Ok purchaseID
           end
  end.

(** The known parameters extracted for display. *)
Definition params_of (queryParams : gmap string (list string)) : UserParams :=
  {| AppID := Url.Get queryParams "app_id";
     UserID := Url.Get queryParams "user_id";
     Timestamp := Url.Get queryParams "ts";
     FirstName := Url.Get queryParams "first_name";
     LastName := Url.Get queryParams "last_name";
     Hash := Url.Get queryParams "hash" |}.

Definition failed (params : UserParams) (msg : string) : PageData :=
  {| User := params; Transactions := []; Error := msg; IsAuthorized := false |}.

(** [handleIndex]; [now] is the clock reading used by [ValidateTimestamp]. *)
Definition handleIndex (now : Z) (r : HttpRequest) : HttpResponse :=
  if String.eqb (Path r) "/favicon.ico" then NotFound
  else
    let queryParams := Query r in
    let params := params_of queryParams in
    if String.eqb (Hash params) "" || String.eqb (UserID params) ""
    then Html (failed params
      "Missing required parameters. This app must be opened from Ton.Place.")
    else if negb (ValidateTimestamp now (Timestamp params))
    then Html (failed params
      "Request expired or invalid timestamp. Please refresh the page.")
    else if negb (VerifySignatureFromQuery queryParams APP_SECRET)
    then Html (failed params
      "Invalid signature. Request may have been tampered with.")
    else
      let userID := (Strconv.ParseInt (UserID params)).1 in
      let transactions :=
        match GetTransactions APP_ID APP_SECRET userID with
        | Err _ => []
        | Ok transactions => transactions
        end in
      Html {| User := params; Transactions := transactions;
              Error := ""; IsAuthorized := true |}.

(** [handleCreatePurchase] *)
Definition handleCreatePurchase (r : HttpRequest) : HttpResponse :=
  if negb (String.eqb (ReqMethod r) "POST")
  then HttpError StatusMethodNotAllowed "Method not allowed"
  else
    match Decode (ReqBody r) with
    | Err e => Json (JsonError ("Invalid request body: " +:+ e))
    | Ok req =>
        if form_Amount req <=? 0
        then Json (JsonError "Amount must be greater than 0")
        else if String.eqb (form_Title req) ""
        then Json (JsonError "Title is required")
        else if (150 <? String.length (form_Title req))%nat
        then Json (JsonError "Title must be 150 characters or less")
        else
          match CreatePurchase APP_ID APP_SECRET (form_UserID req)
                  (form_Amount req) (form_Title req) with
          | Err e => Json (JsonError ("Failed to create purchase: " +:+ e))
          | Ok purchaseID => Json (JsonPurchase purchaseID)
          end
    end.

(** [handleGetTransactions] *)
Definition handleGetTransactions (r : HttpRequest) : HttpResponse :=
  let userIDStr := Url.Get (Query r) "user_id" in
  match Strconv.ParseInt userIDStr with
  | (_, Some _) => Json (JsonError "Invalid user_id")
  | (userID, None) =>
      match GetTransactions APP_ID APP_SECRET userID with
      | Err e => Json (JsonError e)
      | Ok transactions => Json (JsonTransactions transactions)
      end
  end.
End Handlers.

(** * Properties of the client and the handlers *)

Section FormatFacts.
Implicit Types (u n : Z) (buf : string).

Lemma chr_digit u :
  0 <= u <= 9 →
  is_digit (Fmt.chr u) = true ∧ Bytes.of_ascii (Fmt.chr u) = 48 + u.
Proof.
  intros Hu.
  assert (Bytes.of_ascii (Fmt.chr u) = 48 + u) as Hc.
  { unfold Bytes.of_ascii, Fmt.chr, Bytes.byte.
    rewrite Z.mod_small by lia. rewrite N_ascii_embedding by lia. lia. }
  split; [|done]. unfold is_digit. rewrite Hc.
  apply andb_true_iff. split; apply Z.leb_le; lia.
Qed.

(** Reading back what the digit loop wrote gives the number. *)
Lemma digits_decimal (fuel : nat) u buf :
  0 <= u < 10 ^ Z.of_nat fuel →
  decimal 0 (Fmt.digits fuel u buf) = decimal u buf.
Proof.
  revert u buf. induction fuel as [|fuel IH]; intros u buf Hu.
  - cbn [Fmt.digits]. assert (u = 0) as -> by (cbn in Hu; lia). done.
  - cbn [Fmt.digits]. rewrite Nat2Z.inj_succ, Z.pow_succ_r in Hu by lia.
    destruct (10 <=? u) eqn:E.
    + apply Z.leb_le in E. cbv zeta.
      pose proof (Z.div_mod u 10 ltac:(lia)) as Hdm.
      pose proof (Z.mod_pos_bound u 10 ltac:(lia)) as Hm.
      assert (0 <= u / 10 < 10 ^ Z.of_nat fuel) as Hnext.
      { split; [apply Z.div_pos; lia|]. apply Z.div_lt_upper_bound; lia. }
      rewrite IH by done. cbn [decimal].
      destruct (chr_digit (u - u / 10 * 10) ltac:(lia)) as [-> ->].
      f_equal. lia.
    + apply Z.leb_gt in E. cbn [decimal].
      destruct (chr_digit u ltac:(lia)) as [-> ->]. f_equal. lia.
Qed.

Lemma digits_length (fuel : nat) u buf :
  (String.length buf + (if fuel is O then 0 else 1)
   <= String.length (Fmt.digits fuel u buf))%nat.
Proof.
  revert u buf. induction fuel as [|fuel IH]; intros u buf; [cbn; lia|].
  cbn [Fmt.digits]. destruct (10 <=? u).
  - cbv zeta. etrans; [|apply IH]. cbn [String.length]. destruct fuel; lia.
  - cbn [String.length]. lia.
Qed.

Lemma decimal_head (c : ascii) (s : string) (a v : Z) :
  decimal a (String c s) = Some v →
  Ascii.eqb c "+" = false ∧ Ascii.eqb c "-" = false.
Proof.
  cbn [decimal]. destruct (is_digit c) eqn:Hc; [|done]. intros _.
  split; apply Ascii.eqb_neq; intros ->; done.
Qed.

Lemma FormatInt_literal n :
  - 2 ^ 63 <= n <= 2 ^ 63 - 1 → int64_literal (Fmt.FormatInt n) = Some n.
Proof.
  change (2 ^ 63) with 9223372036854775808. intros Hn.
  unfold Fmt.FormatInt.
  assert (∀ u, 0 <= u <= 9223372036854775808 →
            Fmt.digits 20 u "" ≠ "" ∧ decimal 0 (Fmt.digits 20 u "") = Some u)
    as Hd.
  { intros u Hu. split.
    - pose proof (digits_length 20 u "") as Hl. intros Heq.
      rewrite Heq in Hl. cbn in Hl. lia.
    - rewrite digits_decimal; [done|].
      change (10 ^ Z.of_nat 20) with 100000000000000000000. lia. }
  destruct (n <? 0) eqn:E.
  - apply Z.ltb_lt in E.
    change (2 ^ 64) with 18446744073709551616.
    rewrite Z.mod_small by lia.
    destruct (Hd (- n) ltac:(lia)) as [Hne Hdec].
    change ("-" +:+ Fmt.digits 20 (- n) "")
      with (String "-" (Fmt.digits 20 (- n) "")).
    unfold int64_literal. change (Ascii.eqb "-" "+") with false.
    change (Ascii.eqb "-" "-") with true. cbn match.
    unfold signed_value. destruct (Fmt.digits 20 (- n) "") as [|c s]; [done|].
    rewrite Hdec. cbv zeta.
    change (2 ^ 63) with 9223372036854775808.
    rewrite (proj2 (andb_true_iff _ _)) by (split; apply Z.leb_le; lia).
    f_equal. lia.
  - apply Z.ltb_ge in E. rewrite string_app_nil_l.
    destruct (Hd n ltac:(lia)) as [Hne Hdec].
    destruct (Fmt.digits 20 n "") as [|c s] eqn:Hs; [done|].
    destruct (decimal_head _ _ _ _ Hdec) as [Hp Hm].
    unfold int64_literal. rewrite Hp, Hm. unfold signed_value.
    rewrite Hdec. cbv zeta.
    change (2 ^ 63) with 9223372036854775808.
    rewrite (proj2 (andb_true_iff _ _)) by (split; apply Z.leb_le; lia).
    done.
Qed.

Lemma ParseInt_FormatInt n :
  - 2 ^ 63 <= n <= 2 ^ 63 - 1 → Strconv.ParseInt (Fmt.FormatInt n) = (n, None).
Proof.
  intros Hn. pose proof (ParseInt_spec (Fmt.FormatInt n)) as H.
  by rewrite (FormatInt_literal n Hn) in H.
Qed.

(** The value [ParseInt] returns beside an error. *)
Lemma ParseInt_error_value (s : string) (v : Z) (e : Strconv.NumError) :
  Strconv.ParseInt s = (v, Some e) →
  v = 0 ∨ v = 2 ^ 63 - 1 ∨ v = - 2 ^ 63.
Proof.
  assert (∀ neg b, Strconv.convert neg b = (v, Some e) →
            v = 0 ∨ v = 2 ^ 63 - 1 ∨ v = - 2 ^ 63) as H.
  { intros neg b. unfold Strconv.convert.
    destruct (Strconv.ParseUint b) as [un [[]|]]; cbv zeta;
      repeat case_match; intros [= <- <-]; auto. }
  unfold Strconv.ParseInt. destruct s as [|c s]; [intros [= <- <-]; auto|].
  repeat case_match; apply H.
Qed.

Lemma ParseInt_literal_value (s : string) (n : Z) :
  int64_literal s = Some n → Strconv.ParseInt s = (n, None).
Proof. intros H. pose proof (ParseInt_spec s) as Hp. by rewrite H in Hp. Qed.

Lemma ParseInt_literal_error (s : string) :
  int64_literal s = None → ∃ v e, Strconv.ParseInt s = (v, Some e).
Proof. intros H. pose proof (ParseInt_spec s) as Hp. by rewrite H in Hp. Qed.
End FormatFacts.

Section IndexFacts.
Variable Do : Request → Reply.
Variable Unmarshal_transactions : string → result (list Transaction.t).
Implicit Types (q : gmap string (list string)) (r : HttpRequest) (now : Z).

Lemma Get_index q (k : string) :
  k ≠ "hash" → Url.Get q k = index (paramsMap q) k.
Proof.
  intros Hk. unfold Url.Get, index. rewrite paramsMap_lookup.
  unfold first_value. rewrite decide_False by done.
  by destruct (q !! k) as [[|v vs]|].
Qed.

Lemma Get_providedHash q : Url.Get q "hash" = providedHash q.
Proof. reflexivity. Qed.

Lemma Get_retained q (k : string) :
  k ≠ "hash" → Url.Get q k ≠ "" → retained q k.
Proof.
  intros Hk Hg. split; [done|]. unfold Url.Get in Hg.
  destruct (q !! k) as [[|v vs]|]; [done| |done]. eauto.
Qed.

(** A value the handler reads is the value of an entry that was signed. *)
Lemma Get_entry q (k : string) :
  k ≠ "hash" → Url.Get q k ≠ "" → entry k (Url.Get q k) ∈ entries q.
Proof.
  intros Hk Hg. unfold entries. apply list_elem_of_fmap.
  exists k. split; [by rewrite Get_index|].
  by apply elem_of_keys_paramsMap, Get_retained.
Qed.

(** The conjunction of the checks [handleIndex] performs. *)
Definition passes (now : Z) (r : HttpRequest) : bool :=
  negb (String.eqb (Path r) "/favicon.ico") &&
  negb (String.eqb (Url.Get (Query r) "hash") "") &&
  negb (String.eqb (Url.Get (Query r) "user_id") "") &&
  ValidateTimestamp now (Url.Get (Query r) "ts") &&
  VerifySignatureFromQuery (Query r) APP_SECRET.

Lemma handleIndex_passes now r :
  passes now r = true →
  handleIndex Do Unmarshal_transactions now r =
    Html {| User := params_of (Query r);
            Transactions :=
              match GetTransactions Do Unmarshal_transactions APP_ID APP_SECRET
                      (Strconv.ParseInt (Url.Get (Query r) "user_id")).1 with
              | Err _ => []
              | Ok transactions => transactions
              end;
            Error := ""; IsAuthorized := true |}.
Proof.
  unfold passes, handleIndex. cbn [Hash UserID Timestamp params_of].
  intros H. apply andb_true_iff in H as [H H5].
  apply andb_true_iff in H as [H H4]. apply andb_true_iff in H as [H H3].
  apply andb_true_iff in H as [H1 H2].
  apply negb_true_iff in H1, H2, H3. by rewrite H1, H2, H3, H4, H5.
Qed.

Lemma handleIndex_fails now r :
  passes now r = false →
  match handleIndex Do Unmarshal_transactions now r with
  | NotFound => Path r = "/favicon.ico"
  | Html d =>
      User d = params_of (Query r) ∧ IsAuthorized d = false ∧
      Transactions d = [] ∧ Error d ≠ ""
  | _ => False
  end.
Proof.
  unfold passes, handleIndex. cbn [Hash UserID Timestamp params_of].
  destruct (String.eqb_spec (Path r) "/favicon.ico") as [|_]; [done|].
  destruct (String.eqb (Url.Get (Query r) "hash") ""); [done|].
  destruct (String.eqb (Url.Get (Query r) "user_id") ""); [done|].
  destruct (ValidateTimestamp now _); [|done].
  destruct (VerifySignatureFromQuery _ _); done.
Qed.
End IndexFacts.

Section IndexDecision.
Implicit Types (q : gmap string (list string)) (r : HttpRequest) (now : Z).

Lemma Verify_hash_value q (secret : string) :
  VerifySignatureFromQuery q secret = true ↔
  ∃ vs, q !! "hash" = Some (expectedHash q secret :: vs).
Proof.
  rewrite Verify_iff. unfold providedHash.
  pose proof (expectedHash_length q secret) as Hl. split.
  - intros H. destruct (q !! "hash") as [[|v vs]|].
    + by rewrite <- H in Hl.
    + exists vs. by rewrite H.
    + by rewrite <- H in Hl.
  - by intros [vs ->].
Qed.

Lemma passes_iff now r :
  passes now r = true ↔
  Path r ≠ "/favicon.ico" ∧ Url.Get (Query r) "hash" ≠ "" ∧
  Url.Get (Query r) "user_id" ≠ "" ∧
  ValidateTimestamp now (Url.Get (Query r) "ts") = true ∧
  VerifySignatureFromQuery (Query r) APP_SECRET = true.
Proof.
  unfold passes. split.
  - intros H. apply andb_true_iff in H as [H H5].
    apply andb_true_iff in H as [H H4]. apply andb_true_iff in H as [H H3].
    apply andb_true_iff in H as [H1 H2].
    apply negb_true_iff, String.eqb_neq in H1, H2, H3.
    exact (conj H1 (conj H2 (conj H3 (conj H4 H5)))).
  - intros (H1 & H2 & H3 & H4 & H5).
    apply String.eqb_neq in H1, H2, H3. by rewrite H1, H2, H3, H4, H5.
Qed.


(** An authorized page comes from a request that passed every check. *)
Lemma authorized_passes Do Unm now r (d : PageData) :
  handleIndex Do Unm now r = Html d → IsAuthorized d = true →
  passes now r = true.
Proof.
  intros Hd Ha. destruct (passes now r) eqn:Hp; [done|].
  pose proof (handleIndex_fails Do Unm now r Hp) as Hf.
  rewrite Hd in Hf. destruct Hf as (_ & Hf & _). congruence.
Qed.

End IndexDecision.

(** A network that is down, and a codec that rejects everything: enough to
    run the handlers on concrete requests. *)
Definition offline : Request → Reply := λ _, DoError "offline".
Definition reject {A} : string → result A := λ _, Err "unexpected end of JSON input".

Definition signed_request : HttpRequest :=
  {| ReqMethod := "GET"; Path := "/";
     Query := <["hash" :=
                 ["1b70b5e0fcd29d3dc92b084fd9be1ddbf13cad336f576a9dae5c2032147267ad"]]>
              (<["user_id" := ["42"]]> (<["ts" := ["1000000000"]]>
                (<["app_id" := ["7"]]> ∅)));
     ReqBody := "" |}.


(** X1: at a clock reading away from the ends of the 64-bit range,
    handleIndex renders an authorized page exactly when the path is not
    /favicon.ico, the first user_id value is not empty, the first ts value
    is the literal of a 64-bit integer at most 300 seconds old and at most
    60 seconds ahead, and the first hash value is the hex HMAC of the
    check string under APP_SECRET. *)
Theorem X1_handleIndex_authorized_iff (Do : Request → Reply)
    (Unm : string → result (list Transaction.t)) (now : Z) (r : HttpRequest) :
  - 2 ^ 63 + 300 <= now <= 2 ^ 63 - 61 →
  ((∃ d, handleIndex Do Unm now r = Html d ∧ IsAuthorized d = true) ↔
   Path r ≠ "/favicon.ico" ∧
   Url.Get (Query r) "user_id" ≠ "" ∧
   (∃ ts, int64_literal (Url.Get (Query r) "ts") = Some ts ∧
          -60 <= now - ts <= 300) ∧
   (∃ vs, Query r !! "hash" = Some (expectedHash (Query r) APP_SECRET :: vs))).
Proof.
  intros Hnow. split.
  - intros (d & Hd & Ha).
    pose proof (authorized_passes _ _ _ _ _ Hd Ha) as Hp.
    apply passes_iff in Hp as (H1 & H2 & H3 & H4 & H5).
    split; [exact H1|]. split; [exact H3|]. split.
    + exact (proj1 (ValidateTimestamp_window now _ Hnow) H4).
    + exact (proj1 (Verify_hash_value _ _) H5).
  - intros (H1 & H2 & H3 & H4).
    pose proof (proj2 (ValidateTimestamp_window now _ Hnow) H3) as H3'.
    pose proof (proj2 (Verify_hash_value _ _) H4) as H4'.
    assert (Url.Get (Query r) "hash" ≠ "") as Hh.
    { destruct H4 as [vs H4]. unfold Url.Get. rewrite H4. intros He.
      pose proof (expectedHash_length (Query r) APP_SECRET) as Hl.
      rewrite He in Hl. discriminate Hl. }
    pose proof (proj2 (passes_iff now r)
                  (conj H1 (conj Hh (conj H2 (conj H3' H4'))))) as Hp.
    rewrite (handleIndex_passes Do Unm now r Hp). eexists. split; reflexivity.
Qed.

Lemma X1_handleIndex_authorized_iff_witness :
  ∃ d, handleIndex offline reject 1000000100 signed_request = Html d ∧
       IsAuthorized d = true.
Proof.
  assert (- 2 ^ 63 + 300 <= 1000000100 <= 2 ^ 63 - 61) as Hnow
    by (change (2 ^ 63) with 9223372036854775808; lia).
  apply (proj2 (X1_handleIndex_authorized_iff offline reject 1000000100
                  signed_request Hnow)).
  split; [by vm_compute|]. split; [by vm_compute|]. split.
  - exists 1000000000. split; [vm_compute; reflexivity | lia].
  - exists []. vm_compute. reflexivity.
Defined.




(** X3: on an authorized page every parameter shown is covered by the
    verified signature: [user_id=<UserID>] and [ts=<Timestamp>] are among
    the entries whose newline join was authenticated, each of the optional
    fields is empty or likewise among them, and the Hash field is the hex
    HMAC of that join under APP_SECRET. *)
Theorem X3_handleIndex_fields_are_signed (Do : Request → Reply)
    (Unm : string → result (list Transaction.t)) (now : Z) (r : HttpRequest)
    (d : PageData) :
  handleIndex Do Unm now r = Html d → IsAuthorized d = true →
  entry "user_id" (UserID (User d)) ∈ entries (Query r) ∧
  entry "ts" (Timestamp (User d)) ∈ entries (Query r) ∧
  (AppID (User d) = "" ∨ entry "app_id" (AppID (User d)) ∈ entries (Query r)) ∧
  (FirstName (User d) = "" ∨
   entry "first_name" (FirstName (User d)) ∈ entries (Query r)) ∧
  (LastName (User d) = "" ∨
   entry "last_name" (LastName (User d)) ∈ entries (Query r)) ∧
  Hash (User d) =
    sign APP_SECRET (String.concat newline (entries (Query r))).
Proof.
  intros Hd Ha. pose proof (authorized_passes _ _ _ _ _ Hd Ha) as Hp.
  rewrite (handleIndex_passes Do Unm now r Hp) in Hd. injection Hd as <-.
  apply passes_iff in Hp as (H1 & H2 & H3 & H4 & H5).
  cbn [User UserID Timestamp AppID FirstName LastName Hash params_of].
  assert (∀ k, k ≠ "hash" →
            Url.Get (Query r) k = "" ∨
            entry k (Url.Get (Query r) k) ∈ entries (Query r)) as Hopt.
  { intros k Hk. destruct (decide (Url.Get (Query r) k = "")) as [|Hne];
      [by left | right; by apply Get_entry]. }
  split; [by apply Get_entry|]. split.
  - apply Get_entry; [done|]. intros He. rewrite He in H4. discriminate H4.
  - split; [by apply Hopt|]. split; [by apply Hopt|]. split; [by apply Hopt|].
    apply Verify_iff in H5. rewrite Get_providedHash, H5.
    unfold expectedHash. by rewrite checkStr_entries.
Qed.

Definition signed_page : PageData :=
  {| User := params_of (Query signed_request); Transactions := [];
     Error := ""; IsAuthorized := true |}.

Lemma signed_request_page :
  handleIndex offline reject 1000000100 signed_request = Html signed_page.
Proof. vm_compute. reflexivity. Qed.

Lemma X3_handleIndex_fields_are_signed_witness :
  "user_id=42" ∈ entries (Query signed_request) ∧
  "ts=1000000000" ∈ entries (Query signed_request).
Proof.
  destruct (X3_handleIndex_fields_are_signed offline reject 1000000100
              signed_request signed_page signed_request_page eq_refl)
    as (H1 & H2 & _).
  split; [exact H1 | exact H2].
Defined.

(** X4: an authorized page has no error message, and its transactions are
    what GetTransactions returns (none when it fails) for the number that
    ParseInt yields on the user_id text with the parse error ignored: the
    value of the text when it is the literal of a 64-bit integer, and
    otherwise 0, [2^63 - 1] or [-2^63]. *)
Theorem X4_handleIndex_fetches_parsed_user (Do : Request → Reply)
    (Unm : string → result (list Transaction.t)) (now : Z) (r : HttpRequest)
    (d : PageData) :
  handleIndex Do Unm now r = Html d → IsAuthorized d = true →
  Error d = "" ∧
  ∃ userID,
    Transactions d =
      match GetTransactions Do Unm APP_ID APP_SECRET userID with
      | Ok transactions => transactions
      | Err _ => []
      end ∧
    (∀ n, int64_literal (UserID (User d)) = Some n → userID = n) ∧
    (int64_literal (UserID (User d)) = None →
       userID = 0 ∨ userID = 2 ^ 63 - 1 ∨ userID = - 2 ^ 63).
Proof.
  intros Hd Ha. pose proof (authorized_passes _ _ _ _ _ Hd Ha) as Hp.
  rewrite (handleIndex_passes Do Unm now r Hp) in Hd. injection Hd as <-.
  cbn [Error Transactions User UserID params_of]. split; [done|].
  exists (Strconv.ParseInt (Url.Get (Query r) "user_id")).1.
  split; [by destruct (GetTransactions _ _ _ _ _)|]. split.
  - intros n Hn. by rewrite (ParseInt_literal_value _ _ Hn).
  - intros Hn. destruct (ParseInt_literal_error _ Hn) as (v & e & Hv).
    rewrite Hv. cbn [fst]. by apply (ParseInt_error_value _ _ _ Hv).
Qed.

Lemma X4_handleIndex_fetches_parsed_user_witness :
  Error signed_page = "" ∧
  ∃ userID,
    Transactions signed_page =
      match GetTransactions offline reject APP_ID APP_SECRET userID with
      | Ok transactions => transactions
      | Err _ => []
      end ∧
    (∀ n, int64_literal "42" = Some n → userID = n) ∧
    (int64_literal "42" = None →
       userID = 0 ∨ userID = 2 ^ 63 - 1 ∨ userID = - 2 ^ 63).
Proof.
  exact (X4_handleIndex_fetches_parsed_user offline reject 1000000100
           signed_request signed_page signed_request_page eq_refl).
Defined.

(** The three facts about handleGetTransactions and the user_id text. *)
Lemma handleGetTransactions_user_id (Do : Request → Reply)
    (Unm : string → result (list Transaction.t)) (r : HttpRequest) :
  (int64_literal (Url.Get (Query r) "user_id") = None →
     ∀ Do' Unm',
       handleGetTransactions Do' Unm' r = Json (JsonError "Invalid user_id")) ∧
  (∀ n, int64_literal (Url.Get (Query r) "user_id") = Some n →
     handleGetTransactions Do Unm r =
       match GetTransactions Do Unm APP_ID APP_SECRET n with
       | Err e => Json (JsonError e)
       | Ok transactions => Json (JsonTransactions transactions)
       end) ∧
  (∀ r', Url.Get (Query r') "user_id" = Url.Get (Query r) "user_id" →
     handleGetTransactions Do Unm r' = handleGetTransactions Do Unm r).
Proof.
  split; [|split].
  - intros Hn Do' Unm'. unfold handleGetTransactions.
    destruct (ParseInt_literal_error _ Hn) as (v & e & ->). done.
  - intros n Hn. unfold handleGetTransactions.
    by rewrite (ParseInt_literal_value _ _ Hn).
  - intros r' Hr. unfold handleGetTransactions. by rewrite Hr.
Qed.

(** X5: handleGetTransactions looks at nothing but the first user_id
    value. When that text is not the literal of a 64-bit integer the answer
    is the error "Invalid user_id" and the upstream API is not consulted;
    when it is the literal of [n], the answer is the outcome of
    GetTransactions for [n]. Two requests with the same first user_id value
    get the same answer: no signature or timestamp is checked here. *)
Theorem X5_handleGetTransactions_user_id (Do : Request → Reply)
    (Unm : string → result (list Transaction.t)) (r : HttpRequest) :
  (int64_literal (Url.Get (Query r) "user_id") = None →
     ∀ Do' Unm',
       handleGetTransactions Do' Unm' r = Json (JsonError "Invalid user_id")) ∧
  (∀ n, int64_literal (Url.Get (Query r) "user_id") = Some n →
     handleGetTransactions Do Unm r =
       match GetTransactions Do Unm APP_ID APP_SECRET n with
       | Err e => Json (JsonError e)
       | Ok transactions => Json (JsonTransactions transactions)
       end) ∧
  (∀ r', Url.Get (Query r') "user_id" = Url.Get (Query r) "user_id" →
     handleGetTransactions Do Unm r' = handleGetTransactions Do Unm r).
Proof. apply handleGetTransactions_user_id. Qed.

(** A decoded form that handleCreatePurchase lets through. *)
Definition valid_form (req : PurchaseForm) : Prop :=
  0 < form_Amount req ∧ form_Title req ≠ "" ∧
  (String.length (form_Title req) <= 150)%nat.

Section PurchaseFacts.
Variable Do : Request → Reply.
Variable Unmarshal_purchase : string → result Z.
Variable Marshal : CreatePurchaseRequest.t → string.
Variable Decode : string → result PurchaseForm.


End PurchaseFacts.


(** X7: the URL GetTransactions requests is the fixed address followed by
    the decimal form of the user id, which parses back to the same 64-bit
    integer; so different user ids give different URLs. *)
Theorem X7_GetTransactions_url_round_trip (appID secret : string)
    (userID : Z) :
  - 2 ^ 63 <= userID <= 2 ^ 63 - 1 →
  (∃ d, URL (GetTransactions_request appID secret userID) =
          "https://api.tonplace.net/apps/purchases?count=50&userId=" +:+ d ∧
        Strconv.ParseInt d = (userID, None)) ∧
  (∀ userID', - 2 ^ 63 <= userID' <= 2 ^ 63 - 1 →
     URL (GetTransactions_request appID secret userID') =
     URL (GetTransactions_request appID secret userID) →
     userID' = userID).
Proof.
  intros Hu. split.
  - exists (Fmt.FormatInt userID). split; [|by apply ParseInt_FormatInt].
    cbn [URL GetTransactions_request]. unfold TON_PLACE_API.
    by rewrite <- string_app_assoc.
  - intros userID' Hu' Heq. cbn [URL GetTransactions_request] in Heq.
    do 2 apply (inj (String.app _)) in Heq.
    pose proof (ParseInt_FormatInt userID' Hu') as H'.
    rewrite Heq, (ParseInt_FormatInt userID Hu) in H'. by injection H'.
Qed.

Lemma X7_GetTransactions_url_round_trip_witness :
  URL (GetTransactions_request APP_ID APP_SECRET (-42)) =
    "https://api.tonplace.net/apps/purchases?count=50&userId=-42" ∧
  Strconv.ParseInt "-42" = (-42, None).
Proof.
  assert (- 2 ^ 63 <= -42 <= 2 ^ 63 - 1) as Hu by (vm_compute; split; discriminate).
  destruct (proj1 (X7_GetTransactions_url_round_trip APP_ID APP_SECRET (-42) Hu))
    as (d & Hd & Hp).
  split; [reflexivity|].
  cbn [URL GetTransactions_request] in Hd. unfold TON_PLACE_API in Hd.
  rewrite <- string_app_assoc in Hd.
  apply (inj (String.app
    "https://api.tonplace.net/apps/purchases?count=50&userId=")) in Hd.
  rewrite <- Hd in Hp. exact Hp.
Defined.

(** * Limits of the check string *)

Section OrderFacts.
Implicit Types (x y z : string).

Lemma string_lt_irrefl x : ¬ Sort.string_lt x x.
Proof. by intros [_ ?]%string_lt_le_ne. Qed.

Lemma string_lt_trans x y z :
  Sort.string_lt x y → Sort.string_lt y z → Sort.string_lt x z.
Proof.
  intros [H1 N1]%string_lt_le_ne [H2 N2]%string_lt_le_ne.
  apply string_lt_le_ne. split; [by etrans|].
  intros ->. apply N1. by apply (anti_symm String.le).
Qed.

Lemma string_lt_asym x y : Sort.string_lt x y → ¬ Sort.string_lt y x.
Proof. intros H1 H2. by apply (string_lt_irrefl x), (string_lt_trans x y). Qed.
End OrderFacts.

Section CollisionFacts.
Variables (q : gmap string (list string)) (a b v w : string).
Hypothesis a_not_hash : a ≠ "hash".
Hypothesis b_not_hash : b ≠ "hash".
Hypothesis a_before_b : Sort.string_lt a b.
Hypothesis others_outside :
  ∀ k, retained q k → k ≠ a → Sort.string_lt k a ∨ Sort.string_lt b k.

(** One parameter whose value smuggles in a second entry, and the two
    parameters it imitates. *)
Definition smuggled : gmap string (list string) :=
  <[a := [v +:+ newline +:+ b +:+ "=" +:+ w]]> q.
Definition honest : gmap string (list string) :=
  <[b := [w]]> (<[a := [v]]> q).

Lemma a_ne_b : a ≠ b.
Proof.
  intros Hab. pose proof a_before_b as H. rewrite Hab in H.
  by apply string_lt_irrefl in H.
Qed.

Lemma b_not_retained : ¬ retained q b.
Proof.
  intros Hb. destruct (others_outside b Hb) as [H|H].
  - intros ->. by apply string_lt_irrefl in a_before_b.
  - by apply (string_lt_asym a b).
  - by apply string_lt_irrefl in H.
Qed.

Lemma first_value_smuggled (k : string) :
  first_value smuggled k =
    if decide (k = a) then Some (v +:+ newline +:+ b +:+ "=" +:+ w)
    else first_value q k.
Proof. by apply first_value_insert. Qed.

Lemma first_value_honest (k : string) :
  first_value honest k =
    if decide (k = b) then Some w
    else if decide (k = a) then Some v else first_value q k.
Proof.
  unfold honest. rewrite first_value_insert by done.
  destruct (decide (k = b)); [done|]. by apply first_value_insert.
Qed.

Lemma keys_smuggled_mem (k : string) :
  k ∈ keys (paramsMap smuggled) ↔ k = a ∨ retained q k.
Proof.
  rewrite elem_of_keys, paramsMap_lookup, first_value_smuggled.
  rewrite <- first_value_retained.
  destruct (decide (k = a)); [|naive_solver]. split; [auto|by eauto].
Qed.

Lemma keys_honest_mem (k : string) :
  k ∈ keys (paramsMap honest) ↔ k = b ∨ k = a ∨ retained q k.
Proof.
  rewrite elem_of_keys, paramsMap_lookup, first_value_honest.
  rewrite <- first_value_retained.
  destruct (decide (k = b)); [split; [auto|by eauto]|].
  destruct (decide (k = a)); [split; [auto|by eauto]|]. naive_solver.
Qed.

(** The honest request has the smuggled request's keys with [b] right
    after [a]. *)
Lemma keys_honest (l1 l2 : list string) :
  keys (paramsMap smuggled) = l1 ++ a :: l2 →
  keys (paramsMap honest) = l1 ++ a :: b :: l2.
Proof.
  intros Hl. pose proof (keys_strict (paramsMap smuggled)) as Hs.
  rewrite Hl in Hs. apply StronglySorted_app in Hs as (Hx & Hs1 & Hs2).
  apply StronglySorted_cons in Hs2 as [Ha2 Hs2].
  rewrite Forall_forall in Ha2.
  symmetry. apply strict_unique; [|apply keys_strict|].
  - apply StronglySorted_app. split; [|split; [done|]].
    + intros x1 x2 H1 H2. apply elem_of_cons in H2 as [->|H2].
      { apply Hx; [done|left]. }
      apply elem_of_cons in H2 as [->|H2].
      { apply (string_lt_trans _ a); [|done]. apply Hx; [done|left]. }
      apply Hx; [done|]. by right.
    + apply StronglySorted_cons. split.
      { apply Forall_cons. split; [done|]. by apply Forall_forall. }
      apply StronglySorted_cons. split; [|done].
      apply Forall_forall. intros k Hk.
      assert (k ≠ a) as Hka.
      { intros ->. by apply (string_lt_irrefl a), Ha2. }
      assert (retained q k) as Hr.
      { assert (k ∈ keys (paramsMap smuggled)) as Hin
          by (rewrite Hl, elem_of_app, !elem_of_cons; auto).
        apply keys_smuggled_mem in Hin as [|]; done. }
      destruct (others_outside k Hr Hka) as [H|H]; [|done].
      exfalso. by apply (string_lt_asym a k); [apply Ha2|].
  - intros k. rewrite keys_honest_mem.
    rewrite elem_of_app, !elem_of_cons.
    assert (k ∈ l1 ∨ k = a ∨ k ∈ l2 ↔ k = a ∨ retained q k) as Hm.
    { rewrite <- keys_smuggled_mem, Hl, elem_of_app, elem_of_cons. tauto. }
    tauto.
Qed.

Lemma collision : checkStr smuggled = checkStr honest.
Proof.
  assert (a ∈ keys (paramsMap smuggled)) as Hin
    by (apply keys_smuggled_mem; auto).
  apply list_elem_of_split in Hin as (l1 & l2 & Hl).
  pose proof (keys_honest l1 l2 Hl) as Hl'.
  pose proof (keys_NoDup (paramsMap smuggled)) as Hnd. rewrite Hl in Hnd.
  apply NoDup_app in Hnd as (_ & Hl1 & [Hl2 _]%NoDup_cons).
  assert (∀ k, k ∈ l1 ++ l2 →
            index (paramsMap smuggled) k = index (paramsMap honest) k) as Hsame.
  { intros k Hk. unfold index.
    rewrite !paramsMap_lookup, first_value_smuggled, first_value_honest.
    assert (k ≠ a) as Hka.
    { intros ->. apply elem_of_app in Hk as [Hk|Hk]; [|done].
      apply (Hl1 a Hk). left. }
    assert (k ≠ b) as Hkb.
    { intros ->. apply b_not_retained.
      assert (b ∈ keys (paramsMap smuggled)) as Hb
        by (rewrite Hl, elem_of_app, elem_of_cons;
            apply elem_of_app in Hk; tauto).
      apply keys_smuggled_mem in Hb as [|]; done. }
    by rewrite !decide_False. }
  assert (∀ l, l ⊆ l1 ++ l2 →
    (λ k, entry k (index (paramsMap smuggled) k)) <$> l =
    (λ k, entry k (index (paramsMap honest) k)) <$> l) as Hmap.
  { intros l Hsub. apply list_fmap_ext. intros i k Hk.
    by rewrite Hsame by (apply Hsub; by eapply list_elem_of_lookup_2). }
  rewrite !checkStr_entries. unfold entries. rewrite Hl, Hl'.
  rewrite !fmap_app, !fmap_cons, !concat_split.
  rewrite (Hmap l1), (Hmap l2) by set_solver.
  cbn [tail_entries]. f_equal.
  assert (index (paramsMap smuggled) a = v +:+ newline +:+ b +:+ "=" +:+ w)
    as ->.
  { apply index_lookup. rewrite paramsMap_lookup, first_value_smuggled.
    by rewrite decide_True. }
  assert (index (paramsMap honest) a = v) as ->.
  { apply index_lookup. rewrite paramsMap_lookup, first_value_honest.
    rewrite decide_False by (apply a_ne_b). by rewrite decide_True. }
  assert (index (paramsMap honest) b = w) as ->.
  { apply index_lookup. rewrite paramsMap_lookup, first_value_honest.
    by rewrite decide_True. }
  unfold entry. by rewrite !string_app_assoc.
Qed.

Lemma collision_verdict (secret : string) :
  VerifySignatureFromQuery smuggled secret =
  VerifySignatureFromQuery honest secret.
Proof.
  unfold VerifySignatureFromQuery, expectedHash, providedHash.
  rewrite collision. unfold smuggled, honest.
  rewrite !lookup_insert_ne by done. reflexivity.
Qed.
End CollisionFacts.

(** X8: values enter the check string unescaped, so a newline in a value
    forges an entry. If [a] sorts before [b] and every other retained name
    sorts before [a] or after [b], the request whose [a] has the value
    [v], a newline, [b=w] has the same check string as the request with
    [a = v] and [b = w], and VerifySignatureFromQuery gives both the same
    verdict under every secret. *)
Theorem X8_newline_in_value_forges_entry (q : gmap string (list string))
    (a b v w : string) :
  a ≠ "hash" → b ≠ "hash" → Sort.string_lt a b →
  (∀ k, retained q k → k ≠ a → Sort.string_lt k a ∨ Sort.string_lt b k) →
  checkStr (<[a := [v +:+ newline +:+ b +:+ "=" +:+ w]]> q) =
  checkStr (<[b := [w]]> (<[a := [v]]> q)) ∧
  ∀ secret,
    VerifySignatureFromQuery (<[a := [v +:+ newline +:+ b +:+ "=" +:+ w]]> q)
      secret =
    VerifySignatureFromQuery (<[b := [w]]> (<[a := [v]]> q)) secret.
Proof.
  intros Ha Hb Hab Hout. split.
  - by apply collision.
  - intros secret. by apply collision_verdict.
Qed.

Definition q_smuggle : gmap string (list string) :=
  <["hash" := ["00"]]> (<["app_id" := ["7"]]> ∅).

Lemma X8_newline_in_value_forges_entry_witness :
  checkStr (<["ts" := ["1" +:+ newline +:+ "user_id" +:+ "=" +:+ "42"]]>
              q_smuggle) =
  checkStr (<["user_id" := ["42"]]> (<["ts" := ["1"]]> q_smuggle)).
Proof.
  assert ("ts" ≠ "hash") as Ha by done.
  assert ("user_id" ≠ "hash") as Hb by done.
  assert (Sort.string_lt "ts" "user_id") as Hab by reflexivity.
  assert (∀ k, retained q_smuggle k → k ≠ "ts" →
            Sort.string_lt k "ts" ∨ Sort.string_lt "user_id" k) as Hout.
  { intros k [Hk (x & xs & Hq)] _. left. unfold q_smuggle in Hq.
    rewrite lookup_insert_ne in Hq by done.
    destruct (decide (k = "app_id")) as [->|Hne]; [reflexivity|].
    rewrite lookup_insert_ne in Hq by done. by rewrite lookup_empty in Hq. }
  exact (proj1 (X8_newline_in_value_forges_entry q_smuggle "ts" "user_id"
                  "1" "42" Ha Hb Hab Hout)).
Defined.

(** X10: the verdict depends only on the first value of each parameter:
    two query maps whose names carry the same first values (or both none)
    are both accepted or both rejected, whatever further values any name,
    the hash parameter included, carries. *)
Theorem X10_verdict_depends_on_first_values (q1 q2 : gmap string (list string))
    (secret : string) :
  (∀ k, q1 !! k ≫= head = q2 !! k ≫= head) →
  VerifySignatureFromQuery q1 secret = VerifySignatureFromQuery q2 secret.
Proof.
  intros Hq. unfold VerifySignatureFromQuery, expectedHash.
  assert (checkStr q1 = checkStr q2) as ->.
  { apply checkStr_paramsMap, paramsMap_ext. intros k.
    unfold first_value. by rewrite Hq. }
  assert (providedHash q1 = providedHash q2) as ->; [|done].
  unfold providedHash. specialize (Hq "hash").
  destruct (q1 !! "hash") as [[|x xs]|], (q2 !! "hash") as [[|y ys]|];
    cbn in Hq; congruence.
Qed.

Lemma X10_verdict_depends_on_first_values_witness :
  VerifySignatureFromQuery
    (<["hash" := ["00"; "11"]]> (<["a" := ["1"; "2"]]> (<["b" := []]> ∅)))
    "s" =
  VerifySignatureFromQuery (<["hash" := ["00"]]> (<["a" := ["1"]]> ∅)) "s".
Proof.
  apply X10_verdict_depends_on_first_values. intros k.
  destruct (decide (k = "hash")) as [->|Hh]; [done|].
  rewrite !(lookup_insert_ne _ "hash") by done.
  destruct (decide (k = "a")) as [->|Ha]; [done|].
  rewrite !(lookup_insert_ne _ "a") by done.
  destruct (decide (k = "b")) as [->|Hb]; [done|].
  by rewrite lookup_insert_ne.
Defined.

(** X11: the clock readings at which ValidateTimestamp accepts a given
    text form one window of at most 361 seconds: two accepting readings
    are at most 360 seconds apart and every reading between them accepts
    as well. A captured request cannot be replayed later than that. *)
Theorem X11_acceptance_window (now1 now2 : Z) (s : string) :
  - 2 ^ 63 + 300 <= now1 → now1 <= now2 → now2 <= 2 ^ 63 - 61 →
  ValidateTimestamp now1 s = true → ValidateTimestamp now2 s = true →
  now2 - now1 <= 360 ∧
  ∀ now, now1 <= now <= now2 → ValidateTimestamp now s = true.
Proof.
  intros H1 H12 H2 Hv1 Hv2.
  apply ValidateTimestamp_window in Hv1 as (ts & Hs & Hw1); [|lia].
  apply ValidateTimestamp_window in Hv2 as (ts' & Hs' & Hw2); [|lia].
  rewrite Hs in Hs'. injection Hs' as <-. split; [lia|].
  intros now Hn. apply ValidateTimestamp_window; [lia|].
  exists ts. split; [done|lia].
Qed.

Lemma X11_acceptance_window_witness :
  1000000300 - 999999940 <= 360 ∧
  ∀ now, 999999940 <= now <= 1000000300 →
         ValidateTimestamp now "1000000000" = true.
Proof.
  apply X11_acceptance_window.
  - change (2 ^ 63) with 9223372036854775808. lia.
  - lia.
  - change (2 ^ 63) with 9223372036854775808. lia.
  - vm_compute. reflexivity.
  - vm_compute. reflexivity.
Defined.

(** * Provenance of what the handlers return *)

Section ClientFacts.
Variable Do : Request → Reply.
Variable Unmarshal_transactions : string → result (list Transaction.t).
Variable Unmarshal_purchase : string → result Z.
Variable Marshal : CreatePurchaseRequest.t → string.

Lemma auth_headers_lookup (appID secret : string) :
  auth_headers appID secret !! "App-Id" = Some [appID] ∧
  auth_headers appID secret !! "Secret" = Some [secret] ∧
  auth_headers appID secret !! "Content-Type" = Some ["application/json"].
Proof.
  unfold auth_headers, Header_Set. split; [|split].
  - rewrite !lookup_insert_ne by done. apply lookup_insert_eq.
  - rewrite lookup_insert_ne by done. apply lookup_insert_eq.
  - apply lookup_insert_eq.
Qed.

Lemma GetTransactions_Ok (appID secret : string) (userID : Z)
    (transactions : list Transaction.t) :
  GetTransactions Do Unmarshal_transactions appID secret userID
    = Ok transactions ↔
  ∃ body, Do (GetTransactions_request appID secret userID)
            = Response StatusOK body ∧
          Unmarshal_transactions body = Ok transactions.
Proof.
  unfold GetTransactions.
  destruct (Do _) as [err|code err|code body] eqn:Hdo.
  - split; [done|]. by intros (? & ? & _).
  - split; [done|]. by intros (? & ? & _).
  - destruct (code =? StatusOK) eqn:Hc; cbn [negb].
    + apply Z.eqb_eq in Hc as ->.
      destruct (Unmarshal_transactions body) as [x|e] eqn:E.
      * split; [intros [= <-]; by exists body|].
        intros (body' & [= <-] & Hu). by rewrite E in Hu.
      * split; [done|]. intros (body' & [= <-] & Hu). by rewrite E in Hu.
    + apply Z.eqb_neq in Hc. split; [done|].
      intros (body' & [= -> <-] & _). done.
Qed.

Lemma CreatePurchase_Ok (appID secret : string) (userID amount : Z)
    (title : string) (purchaseID : Z) :
  CreatePurchase Do Unmarshal_purchase Marshal appID secret userID amount title
    = Ok purchaseID ↔
  ∃ body, Do (CreatePurchase_request Marshal appID secret userID amount title)
            = Response StatusOK body ∧
          Unmarshal_purchase body = Ok purchaseID.
Proof.
  unfold CreatePurchase.
  destruct (Do _) as [err|code err|code body] eqn:Hdo.
  - split; [done|]. by intros (? & ? & _).
  - split; [done|]. by intros (? & ? & _).
  - destruct (code =? StatusOK) eqn:Hc; cbn [negb].
    + apply Z.eqb_eq in Hc as ->.
      destruct (Unmarshal_purchase body) as [x|e] eqn:E.
      * split; [intros [= <-]; by exists body|].
        intros (body' & [= <-] & Hu). by rewrite E in Hu.
      * split; [done|]. intros (body' & [= <-] & Hu). by rewrite E in Hu.
    + apply Z.eqb_neq in Hc. split; [done|].
      intros (body' & [= -> <-] & _). done.
Qed.
End ClientFacts.

(** X9: transactions in the answer of handleGetTransactions always stem
    from the upstream: the first user_id value is the literal of some [n],
    and the API answered status 200, with a body that unmarshals to these
    transactions, to a GET request for the purchases of user [n] that
    carried APP_ID and APP_SECRET in the App-Id and Secret headers. *)
Theorem X9_handleGetTransactions_provenance (Do : Request → Reply)
    (Unm : string → result (list Transaction.t)) (r : HttpRequest)
    (transactions : list Transaction.t) :
  handleGetTransactions Do Unm r = Json (JsonTransactions transactions) →
  ∃ n body req,
    int64_literal (Url.Get (Query r) "user_id") = Some n ∧
    req = GetTransactions_request APP_ID APP_SECRET n ∧
    Do req = Response StatusOK body ∧ Unm body = Ok transactions ∧
    Method req = "GET" ∧
    URL req = TON_PLACE_API +:+ "/apps/purchases?count=50&userId="
                +:+ Fmt.FormatInt n ∧
    Header req !! "App-Id" = Some [APP_ID] ∧
    Header req !! "Secret" = Some [APP_SECRET].
Proof.
  intros H.
  destruct (int64_literal (Url.Get (Query r) "user_id")) as [n|] eqn:Hn.
  - rewrite (proj1 (proj2 (handleGetTransactions_user_id Do Unm r)) n Hn)
      in H.
    destruct (GetTransactions Do Unm APP_ID APP_SECRET n) as [ts|e] eqn:Hg;
      [|done].
    injection H as ->. apply GetTransactions_Ok in Hg as (body & Hd & Hu).
    exists n, body, (GetTransactions_request APP_ID APP_SECRET n).
    destruct (auth_headers_lookup APP_ID APP_SECRET) as (Ha & Hs & _).
    by repeat split.
  - by rewrite (proj1 (handleGetTransactions_user_id Do Unm r) Hn Do Unm)
      in H.
Qed.

(** An upstream that answers every request with status 200, and codecs
    that accept every body. *)
Definition online : Request → Reply := λ _, Response 200 "{}".
Definition no_transactions : string → result (list Transaction.t) :=
  λ _, Ok [].
Definition purchase_7 : string → result Z := λ _, Ok 7.
Definition marshal_title : CreatePurchaseRequest.t → string :=
  CreatePurchaseRequest.Title.
Definition decode_form : string → result PurchaseForm :=
  λ body, Ok {| form_UserID := 42; form_Amount := 100; form_Title := body |}.

Definition polling_request : HttpRequest :=
  {| ReqMethod := "GET"; Path := "/api/transactions";
     Query := <["user_id" := ["42"]]> ∅; ReqBody := "" |}.

Definition purchase_request : HttpRequest :=
  {| ReqMethod := "POST"; Path := "/api/create-purchase";
     Query := ∅; ReqBody := "Premium" |}.

Lemma X9_handleGetTransactions_provenance_witness :
  ∃ n body req,
    int64_literal (Url.Get (Query polling_request) "user_id") = Some n ∧
    req = GetTransactions_request APP_ID APP_SECRET n ∧
    online req = Response StatusOK body ∧ no_transactions body = Ok [] ∧
    Method req = "GET" ∧
    URL req = TON_PLACE_API +:+ "/apps/purchases?count=50&userId="
                +:+ Fmt.FormatInt n ∧
    Header req !! "App-Id" = Some [APP_ID] ∧
    Header req !! "Secret" = Some [APP_SECRET].
Proof.
  apply (X9_handleGetTransactions_provenance online no_transactions
           polling_request []).
  vm_compute. reflexivity.
Defined.

(** X12: a purchase id in the answer of handleCreatePurchase always stems
    from the upstream: the request was a POST whose body decoded to a valid
    form, and the API answered status 200, with a body that unmarshals to
    this id, to a POST to /apps/purchase/create whose body is the marshalled
    request with the form's amount, title and user, the currency "eur", and
    APP_ID and APP_SECRET in the App-Id and Secret headers. *)
Theorem X12_handleCreatePurchase_provenance (Do : Request → Reply)
    (Unm : string → result Z) (Marshal : CreatePurchaseRequest.t → string)
    (Decode : string → result PurchaseForm) (r : HttpRequest) (id : Z) :
  handleCreatePurchase Do Unm Marshal Decode r = Json (JsonPurchase id) →
  ∃ form body req,
    ReqMethod r = "POST" ∧ Decode (ReqBody r) = Ok form ∧ valid_form form ∧
    Do req = Response StatusOK body ∧ Unm body = Ok id ∧
    Method req = "POST" ∧
    URL req = TON_PLACE_API +:+ "/apps/purchase/create" ∧
    Body req =
      Marshal {| CreatePurchaseRequest.Amount := form_Amount form;
                 CreatePurchaseRequest.Currency := "eur";
                 CreatePurchaseRequest.Title := form_Title form;
                 CreatePurchaseRequest.UserID := form_UserID form |} ∧
    Header req !! "App-Id" = Some [APP_ID] ∧
    Header req !! "Secret" = Some [APP_SECRET].
Proof.
  intros H. unfold handleCreatePurchase in H.
  destruct (String.eqb_spec (ReqMethod r) "POST") as [Hm|Hm]; cbn [negb] in H;
    [|done].
  destruct (Decode (ReqBody r)) as [form|e] eqn:Hd; [|done].
  destruct (form_Amount form <=? 0) eqn:Ha; [done|].
  destruct (String.eqb_spec (form_Title form) "") as [Ht|Ht]; [done|].
  destruct (150 <? String.length (form_Title form))%nat eqn:Hl; [done|].
  apply Z.leb_gt in Ha. apply Nat.ltb_ge in Hl.
  destruct (CreatePurchase Do Unm Marshal APP_ID APP_SECRET (form_UserID form)
              (form_Amount form) (form_Title form)) as [pid|e] eqn:Hc; [|done].
  injection H as ->. apply CreatePurchase_Ok in Hc as (body & Hdo & Hu).
  destruct (auth_headers_lookup APP_ID APP_SECRET) as (Hh1 & Hh2 & _).
  exists form, body, (CreatePurchase_request Marshal APP_ID APP_SECRET
                        (form_UserID form) (form_Amount form) (form_Title form)).
  split; [done|]. split; [done|]. split; [done|]. split; [done|].
  split; [done|]. split; [done|]. split; [done|]. split; [done|].
  split; [exact Hh1 | exact Hh2].
Qed.

Lemma X12_handleCreatePurchase_provenance_witness :
  ∃ form body req,
    ReqMethod purchase_request = "POST" ∧
    decode_form (ReqBody purchase_request) = Ok form ∧ valid_form form ∧
    online req = Response StatusOK body ∧ purchase_7 body = Ok 7 ∧
    Method req = "POST" ∧
    URL req = TON_PLACE_API +:+ "/apps/purchase/create" ∧
    Body req =
      marshal_title
        {| CreatePurchaseRequest.Amount := form_Amount form;
           CreatePurchaseRequest.Currency := "eur";
           CreatePurchaseRequest.Title := form_Title form;
           CreatePurchaseRequest.UserID := form_UserID form |} ∧
    Header req !! "App-Id" = Some [APP_ID] ∧
    Header req !! "Secret" = Some [APP_SECRET].
Proof.
  apply (X12_handleCreatePurchase_provenance online purchase_7 marshal_title
           decode_form purchase_request 7).
  vm_compute. reflexivity.
Defined.




(** X14: for every parameter set and secret exactly one first hash value
    verifies: the hash parameter does not enter the check string, so the
    value VerifySignatureFromQuery compares with is the same for every
    candidate, and a request is accepted if and only if its first hash
    value is that one. *)
Theorem X14_exactly_one_hash_verifies (q : gmap string (list string))
    (secret : string) :
  ∃ h, ∀ (h' : string) (rest : list string),
    VerifySignatureFromQuery (<["hash" := h' :: rest]> q) secret = true ↔
    h' = h.
Proof.
  exists (expectedHash q secret). intros h' rest.
  assert (expectedHash (<["hash" := h' :: rest]> q) secret
          = expectedHash q secret) as He.
  { unfold expectedHash. f_equal.
    apply checkStr_paramsMap, paramsMap_ext. intros k.
    apply first_value_insert_hash. }
  rewrite Verify_iff, He. unfold providedHash. by rewrite lookup_insert_eq.
Qed.

(** X15: the HMAC key derived in step 4 is 32 bytes for every secret, of
    any length, so [hmac.New] never hashes it again: the key block is the
    SHA-256 of the secret followed by 32 zero bytes. *)
Theorem X15_signing_key_is_32_bytes (secret : string) :
  length (secretKey secret) = 32%nat ∧
  Forall Bytes.is_byte (secretKey secret) ∧
  HMAC.block_key (secretKey secret) = secretKey secret ++ repeat 0 32%nat.
Proof.
  unfold secretKey. split; [apply Sum256_length|]. split; [apply Sum256_bytes|].
  unfold HMAC.block_key. rewrite Sum256_length.
  change (SHA256.BlockSize <? SHA256.Size)%nat with false. cbv iota.
  by rewrite Sum256_length.
Qed.
